(** * ABT analytics dashboard back end: the ingestion and aggregation pipeline

    A shallow embedding of [internal/processor/processor.go] and
    [internal/models/models.go].

    - Go [int] is a 64-bit two's complement integer: a [Z] with the
      wrap-around of [+] and [++] written out ([wrap64]).
    - Go [float64] is IEEE 754 binary64: Rocq's primitive [float].
    - Go [string] is a byte sequence: [string].
    - [map[string]*T] is a [gmap string T]; every entry is allocated once, at
      its insertion, and never shared between keys, so updating through the
      pointer is updating the value stored at the key.
    - The goroutines of [ProcessDataset] (the CSV reader, the aggregation
      workers, the goroutine that waits for the workers, and the caller blocked
      in [select]) are a step relation over the channels and the shared maps.
    - The functions of Go's standard library that the code calls on cell
      contents ([strings.TrimSpace], [strings.ToLower], [strconv.ParseFloat],
      [strconv.Atoi], [time.Parse]) are an interface, [GoStd]; [sort.Slice] and
      the iteration order of [range] over a map are specified relationally, by
      what Go's documentation promises of them. *)

From Stdlib Require Import ZArith Floats Lia Ascii String.
From stdpp Require Import gmap strings list pretty relations.

Local Open Scope string_scope.
Local Open Scope list_scope.

(** ** Go's [int] *)

Definition wrap64 (z : Z) : Z := ((z + 2 ^ 63) mod 2 ^ 64 - 2 ^ 63)%Z.

Definition add64 (a b : Z) : Z := wrap64 (a + b).

(** [x++] *)
Definition incr64 (a : Z) : Z := add64 a 1.

Global Arguments wrap64 : simpl never.
Global Arguments add64 : simpl never.
Global Arguments incr64 : simpl never.

(** ** [time.Time], as far as the pipeline observes it

    Every [time.Time] the aggregation sees is either the zero value or the
    result of a [time.Parse] without zone information, that is a civil date
    and time in UTC. *)

Module time.

Inductive Month :=
| January | February | March | April | May | June
| July | August | September | October | November | December.

(** The integer value of a [time.Month] (January = 1). *)
Definition Month_int (m : Month) : Z :=
  match m with
  | January => 1 | February => 2 | March => 3 | April => 4
  | May => 5 | June => 6 | July => 7 | August => 8
  | September => 9 | October => 10 | November => 11 | December => 12
  end%Z.

(** [Month.String()]: the English name of the month. *)
Definition Month_String (m : Month) : string :=
  match m with
  | January => "January" | February => "February" | March => "March"
  | April => "April" | May => "May" | June => "June" | July => "July"
  | August => "August" | September => "September" | October => "October"
  | November => "November" | December => "December"
  end.

Record Time := mkTime {
  Year : Z;
  Month_of : Month;
  Day : Z;
  Hour : Z;
  Minute : Z;
  Second : Z;
  Nanosecond : Z
}.

(** The zero value of [time.Time]: January 1, year 1, 00:00:00 UTC. *)
Definition zero : Time := mkTime 1 January 1 0 0 0 0.

(** [t.Format("January")]: the layout holds the full month name only. *)
Definition Format_January (t : Time) : string := Month_String (Month_of t).

End time.

(** ** [fmt.Sprintf] on the two formats the code uses *)

(** [%d] *)
Definition Sprintf_d (z : Z) : string := pretty z.

(** [%02d]: at least two characters, padded with zeros on the left. *)
Definition Sprintf_02d (z : Z) : string :=
  if decide (0 ≤ z < 10)%Z then "0" +:+ pretty z else pretty z.

(** ** The data model ([internal/models/models.go]) *)

Module Transaction.
Record t := mk {
  TransactionID : string;
  TransactionDate : time.Time;
  UserID : string;
  Country : string;
  Region : string;
  ProductID : string;
  ProductName : string;
  Category : string;
  Price : float;
  Quantity : Z;
  TotalPrice : float;
  StockQuantity : Z;
  AddedDate : time.Time
}.

(** [var transaction models.Transaction]: every field at its zero value. *)
Definition zero : t :=
  mk "" time.zero "" "" "" "" "" "" 0%float 0%Z 0%float 0%Z time.zero.
End Transaction.

Module CountryRevenue.
Record t := mk {
  Country : string;
  ProductName : string;
  TotalRevenue : float;
  TransactionCount : Z
}.
End CountryRevenue.

Module ProductFrequency.
Record t := mk {
  ProductName : string;
  PurchaseCount : Z;
  CurrentStock : Z
}.
End ProductFrequency.

Module MonthlySales.
Record t := mk {
  Month : string;
  Year : Z;
  TotalSales : float;
  SalesVolume : Z
}.
End MonthlySales.

Module RegionRevenue.
Record t := mk {
  Region : string;
  TotalRevenue : float;
  ItemsSold : Z
}.
End RegionRevenue.

Module DashboardData.
Record t := mk {
  CountryRevenues : list CountryRevenue.t;
  TopProducts : list ProductFrequency.t;
  MonthlySales : list MonthlySales.t;
  TopRegions : list RegionRevenue.t;
  LastUpdated : time.Time;
  ProcessingDuration : Z;
  RecordCount : Z
}.
End DashboardData.

(** [New()]: a processor whose four views are empty. *)
Definition New : DashboardData.t :=
  DashboardData.mk [] [] [] [] time.zero 0 0.

(** ** The aggregation maps of one run *)

Record Maps := mkMaps {
  countryMap : gmap string CountryRevenue.t;
  productMap : gmap string ProductFrequency.t;
  monthMap : gmap string MonthlySales.t;
  regionMap : gmap string RegionRevenue.t
}.

Definition emptyMaps : Maps := mkMaps ∅ ∅ ∅ ∅.

(** ** [aggregateWorker]: what one worker does with one transaction while it
    holds the mutex *)

(** [fmt.Sprintf("%s-%s", transaction.Country, transaction.ProductName)] *)
Definition countryKey (tx : Transaction.t) : string :=
  Transaction.Country tx +:+ "-" +:+ Transaction.ProductName tx.

Definition aggregateCountry (tx : Transaction.t)
    (m : gmap string CountryRevenue.t) : gmap string CountryRevenue.t :=
  match m !! countryKey tx with
  | Some countryRev =>
      <[countryKey tx :=
          CountryRevenue.mk
            (CountryRevenue.Country countryRev)
            (CountryRevenue.ProductName countryRev)
            (CountryRevenue.TotalRevenue countryRev + Transaction.TotalPrice tx)%float
            (incr64 (CountryRevenue.TransactionCount countryRev))]> m
  | None =>
      <[countryKey tx :=
          CountryRevenue.mk
            (Transaction.Country tx)
            (Transaction.ProductName tx)
            (Transaction.TotalPrice tx)
            1]> m
  end.

Definition aggregateProduct (tx : Transaction.t)
    (m : gmap string ProductFrequency.t) : gmap string ProductFrequency.t :=
  match m !! Transaction.ProductName tx with
  | Some product =>
      <[Transaction.ProductName tx :=
          ProductFrequency.mk
            (ProductFrequency.ProductName product)
            (incr64 (ProductFrequency.PurchaseCount product))
            (if decide (Transaction.StockQuantity tx > 0)%Z
             then Transaction.StockQuantity tx
             else ProductFrequency.CurrentStock product)]> m
  | None =>
      <[Transaction.ProductName tx :=
          ProductFrequency.mk
            (Transaction.ProductName tx)
            1
            (Transaction.StockQuantity tx)]> m
  end.

(** [fmt.Sprintf("%d-%02d", date.Year(), date.Month())] *)
Definition monthKey (tx : Transaction.t) : string :=
  Sprintf_d (time.Year (Transaction.TransactionDate tx)) +:+ "-" +:+
  Sprintf_02d (time.Month_int (time.Month_of (Transaction.TransactionDate tx))).

Definition aggregateMonth (tx : Transaction.t)
    (m : gmap string MonthlySales.t) : gmap string MonthlySales.t :=
  match m !! monthKey tx with
  | Some monthlySales =>
      <[monthKey tx :=
          MonthlySales.mk
            (MonthlySales.Month monthlySales)
            (MonthlySales.Year monthlySales)
            (MonthlySales.TotalSales monthlySales + Transaction.TotalPrice tx)%float
            (add64 (MonthlySales.SalesVolume monthlySales) (Transaction.Quantity tx))]> m
  | None =>
      <[monthKey tx :=
          MonthlySales.mk
            (time.Format_January (Transaction.TransactionDate tx))
            (time.Year (Transaction.TransactionDate tx))
            (Transaction.TotalPrice tx)
            (Transaction.Quantity tx)]> m
  end.

Definition aggregateRegion (tx : Transaction.t)
    (m : gmap string RegionRevenue.t) : gmap string RegionRevenue.t :=
  match m !! Transaction.Region tx with
  | Some region =>
      <[Transaction.Region tx :=
          RegionRevenue.mk
            (RegionRevenue.Region region)
            (RegionRevenue.TotalRevenue region + Transaction.TotalPrice tx)%float
            (add64 (RegionRevenue.ItemsSold region) (Transaction.Quantity tx))]> m
  | None =>
      <[Transaction.Region tx :=
          RegionRevenue.mk
            (Transaction.Region tx)
            (Transaction.TotalPrice tx)
            (Transaction.Quantity tx)]> m
  end.

(** The critical section of [aggregateWorker], from [mu.Lock()] to
    [mu.Unlock()]: all four maps are updated from one transaction. *)
Definition aggregateWorker_locked (ms : Maps) (tx : Transaction.t) : Maps :=
  mkMaps (aggregateCountry tx (countryMap ms))
         (aggregateProduct tx (productMap ms))
         (aggregateMonth tx (monthMap ms))
         (aggregateRegion tx (regionMap ms)).

(** The maps after the workers have folded [txs], in the order in which the
    mutex was taken. *)
Definition aggregateAll (txs : list Transaction.t) : Maps :=
  foldl aggregateWorker_locked emptyMaps txs.

(** ** The standard library functions applied to cell contents

    [strconv.ParseFloat s 64] and [strconv.Atoi s] are [Some v] exactly when
    Go returns [v] with a nil error, and [time.Parse layout s] likewise. *)

Class GoStd := {
  strings_TrimSpace : string → string;
  strings_ToLower : string → string;
  strconv_ParseFloat : string → option float;
  strconv_Atoi : string → option Z;
  time_Parse : string → string → option time.Time
}.

(** Go's [error], by its message. *)
Definition error := string.

Section Parser.
Context `{!GoStd}.

(** [if idx, ok := headerMap[name]; ok && idx < len(record)], then
    [record[idx]].  The header map sends a column name to its position in the
    header row. *)
Definition column (record : list string) (headerMap : gmap string nat)
    (name : string) : option string :=
  match headerMap !! name with
  | Some idx => if decide (idx < length record) then record !! idx else None
  | None => None
  end.

(** The layouts tried on a date cell, in this order. *)
Definition formats : list string :=
  ["2006-01-02"; "2006-01-02 15:04:05"; "01/02/2006"; "01-02-2006"; "2006/01/02"].

(** [for _, format := range formats]: the first layout that parses wins. *)
Fixpoint parseDate (layouts : list string) (dateStr : string) : option time.Time :=
  match layouts with
  | [] => None
  | format :: rest =>
      match time_Parse format dateStr with
      | Some date => Some date
      | None => parseDate rest dateStr
      end
  end.

(** One guarded assignment of [parseTransaction]: when the column is present
    and the cell converts, the field is set; otherwise the transaction is left
    as it is. *)
Definition assign {V} (cell : option string) (convert : string → option V)
    (set : V → Transaction.t → Transaction.t) (tx : Transaction.t) : Transaction.t :=
  match cell with
  | Some s =>
      match convert (strings_TrimSpace s) with
      | Some v => set v tx
      | None => tx
      end
  | None => tx
  end.

Definition set_TransactionID (v : string) (tx : Transaction.t) : Transaction.t :=
  let 'Transaction.mk _ td u c r pi pn cat p q tp s ad := tx in
  Transaction.mk v td u c r pi pn cat p q tp s ad.
Definition set_TransactionDate (v : time.Time) (tx : Transaction.t) : Transaction.t :=
  let 'Transaction.mk ti _ u c r pi pn cat p q tp s ad := tx in
  Transaction.mk ti v u c r pi pn cat p q tp s ad.
Definition set_UserID (v : string) (tx : Transaction.t) : Transaction.t :=
  let 'Transaction.mk ti td _ c r pi pn cat p q tp s ad := tx in
  Transaction.mk ti td v c r pi pn cat p q tp s ad.
Definition set_Country (v : string) (tx : Transaction.t) : Transaction.t :=
  let 'Transaction.mk ti td u _ r pi pn cat p q tp s ad := tx in
  Transaction.mk ti td u v r pi pn cat p q tp s ad.
Definition set_Region (v : string) (tx : Transaction.t) : Transaction.t :=
  let 'Transaction.mk ti td u c _ pi pn cat p q tp s ad := tx in
  Transaction.mk ti td u c v pi pn cat p q tp s ad.
Definition set_ProductID (v : string) (tx : Transaction.t) : Transaction.t :=
  let 'Transaction.mk ti td u c r _ pn cat p q tp s ad := tx in
  Transaction.mk ti td u c r v pn cat p q tp s ad.
Definition set_ProductName (v : string) (tx : Transaction.t) : Transaction.t :=
  let 'Transaction.mk ti td u c r pi _ cat p q tp s ad := tx in
  Transaction.mk ti td u c r pi v cat p q tp s ad.
Definition set_Category (v : string) (tx : Transaction.t) : Transaction.t :=
  let 'Transaction.mk ti td u c r pi pn _ p q tp s ad := tx in
  Transaction.mk ti td u c r pi pn v p q tp s ad.
Definition set_Price (v : float) (tx : Transaction.t) : Transaction.t :=
  let 'Transaction.mk ti td u c r pi pn cat _ q tp s ad := tx in
  Transaction.mk ti td u c r pi pn cat v q tp s ad.
Definition set_Quantity (v : Z) (tx : Transaction.t) : Transaction.t :=
  let 'Transaction.mk ti td u c r pi pn cat p _ tp s ad := tx in
  Transaction.mk ti td u c r pi pn cat p v tp s ad.
Definition set_TotalPrice (v : float) (tx : Transaction.t) : Transaction.t :=
  let 'Transaction.mk ti td u c r pi pn cat p q _ s ad := tx in
  Transaction.mk ti td u c r pi pn cat p q v s ad.
Definition set_StockQuantity (v : Z) (tx : Transaction.t) : Transaction.t :=
  let 'Transaction.mk ti td u c r pi pn cat p q tp _ ad := tx in
  Transaction.mk ti td u c r pi pn cat p q tp v ad.
Definition set_AddedDate (v : time.Time) (tx : Transaction.t) : Transaction.t :=
  let 'Transaction.mk ti td u c r pi pn cat p q tp s _ := tx in
  Transaction.mk ti td u c r pi pn cat p q tp s v.

(** [parseTransaction]: the assignments in the order of the source; the
    returned error is always nil. *)
Definition parseTransaction (record : list string) (headerMap : gmap string nat)
    : Transaction.t * option error :=
  let cell := column record headerMap in
  let transaction := Transaction.zero in
  let transaction := assign (cell "transaction_id") Some set_TransactionID transaction in
  let transaction := assign (cell "user_id") Some set_UserID transaction in
  let transaction := assign (cell "product_id") Some set_ProductID transaction in
  let transaction := assign (cell "product_name") Some set_ProductName transaction in
  let transaction := assign (cell "category") Some set_Category transaction in
  let transaction := assign (cell "country") Some set_Country transaction in
  let transaction := assign (cell "region") Some set_Region transaction in
  let transaction := assign (cell "price") strconv_ParseFloat set_Price transaction in
  let transaction := assign (cell "total_price") strconv_ParseFloat set_TotalPrice transaction in
  let transaction := assign (cell "quantity") strconv_Atoi set_Quantity transaction in
  let transaction := assign (cell "stock_quantity") strconv_Atoi set_StockQuantity transaction in
  let transaction :=
    assign (cell "transaction_date") (parseDate formats) set_TransactionDate transaction in
  let transaction :=
    assign (cell "added_date") (parseDate formats) set_AddedDate transaction in
  (transaction, None).

(** ** [readCSV] *)

(** What one [reader.Read()] returns before the end of the file: a record, or
    an error other than [io.EOF]. *)
Inductive readResult :=
| ReadErr (err : error)
| ReadOk (record : list string).

(** [for i, header := range headers { headerMap[TrimSpace(ToLower(header))] = i }] *)
Definition buildHeaderMap (headers : list string) : gmap string nat :=
  foldl (λ headerMap ih, <[strings_TrimSpace (strings_ToLower ih.2) := ih.1]> headerMap)
        ∅ (zip (seq 0 (length headers)) headers).

(** The transactions [readCSV] sends on [transactionCh], in order: a row whose
    read fails is logged and skipped, and so is one whose parse fails. *)
Fixpoint readCSV_sent (headerMap : gmap string nat) (rows : list readResult)
    : list Transaction.t :=
  match rows with
  | [] => []
  | ReadErr _ :: rest => readCSV_sent headerMap rest
  | ReadOk record :: rest =>
      match parseTransaction record headerMap with
      | (transaction, None) => transaction :: readCSV_sent headerMap rest
      | (_, Some _) => readCSV_sent headerMap rest
      end
  end.

End Parser.

Global Arguments parseTransaction : simpl never.
Global Arguments buildHeaderMap : simpl never.

(** The structurally valid rows of a file: those [reader.Read()] returns
    without an error. *)
Definition validRows (rows : list readResult) : list (list string) :=
  omap (λ r, match r with ReadOk record => Some record | ReadErr _ => None end) rows.

(** ** [sort.Slice] and [range] over a map

    Go promises of [sort.Slice] that the result is a reordering of the slice
    which is sorted by [less], provided [less] is a transitive ordering
    (sort.Interface: when [less a b] and [less b c] hold so does [less a c],
    and when both fail so does [less a c]); the sort is not stable.  The
    iteration order of [range] over a map is unspecified. *)

Definition transitive_ordering {A} (less : A → A → bool) (xs : list A) : Prop :=
  (∀ a, a ∈ xs → less a a = false) ∧
  (∀ a b c, a ∈ xs → b ∈ xs → c ∈ xs →
     less a b = true → less b c = true → less a c = true) ∧
  (∀ a b c, a ∈ xs → b ∈ xs → c ∈ xs →
     less a b = false → less b c = false → less a c = false).

(** No element sorts before an element that precedes it. *)
Definition sorted_by {A} (less : A → A → bool) (ys : list A) : Prop :=
  ∀ i j a b, i < j → ys !! i = Some a → ys !! j = Some b → less b a = false.

Definition sort_Slice {A} (less : A → A → bool) (xs ys : list A) : Prop :=
  ys ≡ₚ xs ∧ (transitive_ordering less xs → sorted_by less ys).

(** [for _, v := range m { vs = append(vs, *v) }] *)
Definition range_values {A} (m : gmap string A) (vs : list A) : Prop :=
  vs ≡ₚ (map_to_list m).*2.

(** [if len(xs) > limit { xs = xs[:limit] }] *)
Definition truncate {A} (limit : nat) (xs : list A) : list A :=
  if decide (limit < length xs) then take limit xs else xs.

(** ** The four sorting functions *)

Definition lessCountryRevenue (a b : CountryRevenue.t) : bool :=
  (CountryRevenue.TotalRevenue b <? CountryRevenue.TotalRevenue a)%float.

Definition lessProductFrequency (a b : ProductFrequency.t) : bool :=
  (ProductFrequency.PurchaseCount a >? ProductFrequency.PurchaseCount b)%Z.

Definition lessMonthlySales (a b : MonthlySales.t) : bool :=
  if decide (MonthlySales.Year a ≠ MonthlySales.Year b)
  then (MonthlySales.Year a >? MonthlySales.Year b)%Z
  else (MonthlySales.TotalSales b <? MonthlySales.TotalSales a)%float.

Definition lessRegionRevenue (a b : RegionRevenue.t) : bool :=
  (RegionRevenue.TotalRevenue b <? RegionRevenue.TotalRevenue a)%float.

Definition sortCountryRevenues (countryMap : gmap string CountryRevenue.t)
    (out : list CountryRevenue.t) : Prop :=
  ∃ revenues, range_values countryMap revenues ∧
    sort_Slice lessCountryRevenue revenues out.

Definition sortTopProducts (productMap : gmap string ProductFrequency.t)
    (limit : nat) (out : list ProductFrequency.t) : Prop :=
  ∃ products sorted, range_values productMap products ∧
    sort_Slice lessProductFrequency products sorted ∧
    out = truncate limit sorted.

Definition sortMonthlySales (monthMap : gmap string MonthlySales.t)
    (out : list MonthlySales.t) : Prop :=
  ∃ sales, range_values monthMap sales ∧ sort_Slice lessMonthlySales sales out.

Definition sortTopRegions (regionMap : gmap string RegionRevenue.t)
    (limit : nat) (out : list RegionRevenue.t) : Prop :=
  ∃ regions sorted, range_values regionMap regions ∧
    sort_Slice lessRegionRevenue regions sorted ∧
    out = truncate limit sorted.

(** The assignments of [ProcessDataset] under [p.mu.Lock()]: [now] is what
    [time.Now()] returns and [duration] what [time.Since(start)] returns. *)
Definition publish (ms : Maps) (now : time.Time) (duration : Z)
    (d' : DashboardData.t) : Prop :=
  sortCountryRevenues (countryMap ms) (DashboardData.CountryRevenues d') ∧
  sortTopProducts (productMap ms) 20 (DashboardData.TopProducts d') ∧
  sortMonthlySales (monthMap ms) (DashboardData.MonthlySales d') ∧
  sortTopRegions (regionMap ms) 30 (DashboardData.TopRegions d') ∧
  DashboardData.LastUpdated d' = now ∧
  DashboardData.ProcessingDuration d' = duration ∧
  DashboardData.RecordCount d' = Z.of_nat (size (countryMap ms)).

(** ** [ProcessDataset]: the goroutines and their channels

    What [os.Open] and the CSV reader give for a path: the file cannot be
    opened, or it is a header read followed by the reads of the rows up to
    [io.EOF].  A read that fails with another error than [io.EOF] (a
    malformed row, a row whose number of fields differs from the header's) is
    a [ReadErr]; the reader goes on with the next row. *)
Inductive source :=
| CannotOpen (err : error)
| File (header : readResult) (rows : list readResult).

(** The reader goroutine: before the header, in the loop over the rows that
    are left, returned from [readCSV] with [close(transactionCh)] deferred,
    gone. *)
Inductive readerPc :=
| RHeader
| RLoop (headerMap : gmap string nat) (rest : list readResult)
| RClosing
| RExited.

(** An aggregation worker: at [range transactionCh], holding a received
    transaction on its way through the critical section, returned. *)
Inductive workerPc :=
| WRange
| WLocked (transaction : Transaction.t)
| WExited.

(** The caller: blocked in [select], or returned. *)
Inductive mainPc :=
| MSelect
| MReturned (err : option error).

Record state := mkState {
  reader : readerPc;
  transactionCh : list Transaction.t;
  transactionCh_closed : bool;
  errorCh : option error;
  workers : list workerPc;
  done : bool;
  maps : Maps;
  main : mainPc;
  dashboardData : DashboardData.t
}.

(** [make(chan models.Transaction, 1000)] *)
Definition transactionCh_capacity : nat := 1000.

Section Pipeline.
Context `{!GoStd}.
Variable header : readResult.
Variable rows : list readResult.

Inductive step : state → state → Prop :=
(* readCSV: reader.Read() of the header fails; the goroutine sends the error
   on errorCh (capacity 1, empty) and returns *)
| step_header_error e q c ws dn ms mn d :
    header = ReadErr e →
    step (mkState RHeader q c None ws dn ms mn d)
         (mkState RClosing q c (Some ("failed to read header: " +:+ e)) ws dn ms mn d)
(* readCSV: the header is read and the header map is built *)
| step_header_ok headers q c ec ws dn ms mn d :
    header = ReadOk headers →
    step (mkState RHeader q c ec ws dn ms mn d)
         (mkState (RLoop (buildHeaderMap headers) rows) q c ec ws dn ms mn d)
(* readCSV: a row fails to read; it is logged and skipped *)
| step_row_error hm e rest q c ec ws dn ms mn d :
    step (mkState (RLoop hm (ReadErr e :: rest)) q c ec ws dn ms mn d)
         (mkState (RLoop hm rest) q c ec ws dn ms mn d)
(* readCSV: a row is read, parsed and sent; the send waits for room *)
| step_row_send hm record rest tx q ec ws dn ms mn d :
    parseTransaction record hm = (tx, None) →
    length q < transactionCh_capacity →
    step (mkState (RLoop hm (ReadOk record :: rest)) q false ec ws dn ms mn d)
         (mkState (RLoop hm rest) (q ++ [tx]) false ec ws dn ms mn d)
(* readCSV: a row is read and its parse fails; it is logged and skipped *)
| step_row_parse_error hm record rest tx e q c ec ws dn ms mn d :
    parseTransaction record hm = (tx, Some e) →
    step (mkState (RLoop hm (ReadOk record :: rest)) q c ec ws dn ms mn d)
         (mkState (RLoop hm rest) q c ec ws dn ms mn d)
(* readCSV: io.EOF ends the loop and readCSV returns nil *)
| step_eof hm q c ec ws dn ms mn d :
    step (mkState (RLoop hm []) q c ec ws dn ms mn d)
         (mkState RClosing q c ec ws dn ms mn d)
(* the reader goroutine's deferred close(transactionCh) *)
| step_close q c ec ws dn ms mn d :
    step (mkState RClosing q c ec ws dn ms mn d)
         (mkState RExited q true ec ws dn ms mn d)
(* aggregateWorker: range receives the oldest buffered transaction *)
| step_worker_receive i tx q c ec ws dn ms mn d r :
    ws !! i = Some WRange →
    step (mkState r (tx :: q) c ec ws dn ms mn d)
         (mkState r q c ec (<[i := WLocked tx]> ws) dn ms mn d)
(* aggregateWorker: mu.Lock(), the four updates, mu.Unlock() *)
| step_worker_aggregate i tx q c ec ws dn ms mn d r :
    ws !! i = Some (WLocked tx) →
    step (mkState r q c ec ws dn ms mn d)
         (mkState r q c ec (<[i := WRange]> ws) dn (aggregateWorker_locked ms tx) mn d)
(* aggregateWorker: the channel is closed and drained; wg.Done() *)
| step_worker_exit i ec ws dn ms mn d r :
    ws !! i = Some WRange →
    step (mkState r [] true ec ws dn ms mn d)
         (mkState r [] true ec (<[i := WExited]> ws) dn ms mn d)
(* wg.Wait() returns once every worker is done; close(done) *)
| step_wait q c ec ws ms mn d r :
    Forall (λ w, w = WExited) ws →
    step (mkState r q c ec ws false ms mn d)
         (mkState r q c ec ws true ms mn d)
(* select: case err := <-errorCh.  A select proceeds with a case that is
   ready; when several are, Go chooses one of them by a uniform pseudo-random
   selection (The Go Programming Language Specification, Select statements),
   so neither case of this select has priority over the other. *)
| step_select_error e q c ws dn ms d r :
    step (mkState r q c (Some e) ws dn ms MSelect d)
         (mkState r q c None ws dn ms
            (MReturned (Some ("error during processing: " +:+ e))) d)
(* select: case <-done, followed by the publication of the four views *)
| step_select_done now duration d' q c ec ws ms d r :
    publish ms now duration d' →
    step (mkState r q c ec ws true ms MSelect d)
         (mkState r q c ec ws true ms (MReturned None) d').

(** The state in which [ProcessDataset] reaches its [select]: the goroutines
    are started, none has moved, nothing is sent. *)
Definition init (numWorkers : positive) (d : DashboardData.t) : state :=
  mkState RHeader [] false None (replicate (Pos.to_nat numWorkers) WRange)
          false emptyMaps MSelect d.

End Pipeline.

(** [ProcessDataset numWorkers src d d' err]: called on a processor holding
    [d], with [runtime.NumCPU() = numWorkers] (at least 1), on a path that
    gives [src], the call can return [err] and leave the processor holding
    [d']. *)
Definition ProcessDataset `{!GoStd} (numWorkers : positive) (src : source)
    (d d' : DashboardData.t) (err : option error) : Prop :=
  match src with
  | CannotOpen e => d' = d ∧ err = Some ("failed to open file: " +:+ e)
  | File header rows =>
      ∃ st, rtc (step header rows) (init numWorkers d) st ∧
            main st = MReturned err ∧ dashboardData st = d'
  end.

(** The transactions a run sends to the workers. *)
Definition sent `{!GoStd} (src : source) : list Transaction.t :=
  match src with
  | File (ReadOk headers) rows => readCSV_sent (buildHeaderMap headers) rows
  | _ => []
  end.

(** The number of structurally valid rows a run reads after the header. *)
Definition validRowCount (src : source) : nat :=
  match src with
  | File (ReadOk _) rows => length (validRows rows)
  | _ => 0
  end.

(** ** A reference instance of [GoStd]

    Executable versions of the standard library functions on the inputs the
    examples below use: ASCII text, decimal literals whose digits fit a
    float64 exactly, and the five layouts of [formats].  On ASCII white space
    and letters, on decimal integers, on ["NaN"], on decimal literals of at
    most 15 fraction digits and a mantissa below [2^53], and on dates without
    fractional seconds they return what Go returns; the other forms Go accepts
    (Unicode white space and letters, exponents, hexadecimal floats,
    infinities) are rejected here and are not used below. *)

Module GoRef.

Fixpoint trim_left (s : string) : string :=
  match s with
  | String c s' => if Ascii.is_space c then trim_left s' else s
  | EmptyString => EmptyString
  end.

Definition TrimSpace (s : string) : string :=
  String.rev (trim_left (String.rev (trim_left s))).

Definition lower (c : Ascii.ascii) : Ascii.ascii :=
  let n := Ascii.N_of_ascii c in
  if ((65 <=? n) && (n <=? 90))%N then Ascii.ascii_of_N (n + 32) else c.

Fixpoint ToLower (s : string) : string :=
  match s with
  | String c s' => String (lower c) (ToLower s')
  | EmptyString => EmptyString
  end.

(** The value of a run of decimal digits, most significant first. *)
Fixpoint digits_from (acc : Z) (s : string) : option Z :=
  match s with
  | EmptyString => Some acc
  | String c s' =>
      match Ascii.is_nat c with
      | Some n => digits_from (10 * acc + Z.of_nat n) s'
      | None => None
      end
  end.

Definition digits (s : string) : option Z :=
  match s with
  | EmptyString => None
  | _ => digits_from 0 s
  end.

Definition signed (s : string) : bool * string :=
  match s with
  | String "+"%char s' => (false, s')
  | String "-"%char s' => (true, s')
  | _ => (false, s)
  end.

Definition Atoi (s : string) : option Z :=
  let '(neg, body) := signed s in
  match digits body with
  | Some n =>
      let v := if neg then (- n)%Z else n in
      if decide (- 2 ^ 63 ≤ v < 2 ^ 63)%Z then Some v else None
  | None => None
  end.

(** The text before and after the first ["."], if there is one. *)
Fixpoint split_point (s : string) : string * option string :=
  match s with
  | EmptyString => (EmptyString, None)
  | String "."%char s' => (EmptyString, Some s')
  | String c s' => let '(a, b) := split_point s' in (String c a, b)
  end.

Definition float_of_Z (z : Z) : float := PrimFloat.of_uint63 (Uint63.of_Z z).

Definition ParseFloat (s : string) : option float :=
  if decide (s = "NaN") then Some PrimFloat.nan else
  let '(neg, body) := signed s in
  let '(int_part, frac) := split_point body in
  let frac_part := default EmptyString frac in
  match digits (int_part +:+ frac_part) with
  | Some m =>
      let k := String.length frac_part in
      if decide (m < 2 ^ 53 ∧ Z.of_nat k ≤ 15)%Z then
        let v := (float_of_Z m / float_of_Z (10 ^ Z.of_nat k))%float in
        Some (if neg then (- v)%float else v)
      else None
  | None => None
  end.

(** The next [n] characters as a decimal number, and what follows them. *)
Fixpoint take_digits (n : nat) (acc : Z) (s : string) : option (Z * string) :=
  match n with
  | 0 => Some (acc, s)
  | S n' =>
      match s with
      | String c s' =>
          match Ascii.is_nat c with
          | Some d => take_digits n' (10 * acc + Z.of_nat d) s'
          | None => None
          end
      | EmptyString => None
      end
  end.

Record civil := mkCivil { cY : Z; cM : Z; cD : Z; ch : Z; cm : Z; cs : Z }.

(** The layout is read from left to right: the reference year, month, day,
    hour, minute and second stand for a number of that width, any other
    character for itself. *)
Fixpoint parse_layout (layout s : string) (c : civil) : option civil :=
  match layout with
  | EmptyString => match s with EmptyString => Some c | _ => None end
  | String "2"%char (String "0"%char (String "0"%char (String "6"%char layout'))) =>
      match take_digits 4 0 s with
      | Some (v, s') => parse_layout layout' s' (mkCivil v (cM c) (cD c) (ch c) (cm c) (cs c))
      | None => None
      end
  | String "0"%char (String "1"%char layout') =>
      match take_digits 2 0 s with
      | Some (v, s') => parse_layout layout' s' (mkCivil (cY c) v (cD c) (ch c) (cm c) (cs c))
      | None => None
      end
  | String "0"%char (String "2"%char layout') =>
      match take_digits 2 0 s with
      | Some (v, s') => parse_layout layout' s' (mkCivil (cY c) (cM c) v (ch c) (cm c) (cs c))
      | None => None
      end
  | String "1"%char (String "5"%char layout') =>
      match take_digits 2 0 s with
      | Some (v, s') => parse_layout layout' s' (mkCivil (cY c) (cM c) (cD c) v (cm c) (cs c))
      | None => None
      end
  | String "0"%char (String "4"%char layout') =>
      match take_digits 2 0 s with
      | Some (v, s') => parse_layout layout' s' (mkCivil (cY c) (cM c) (cD c) (ch c) v (cs c))
      | None => None
      end
  | String "0"%char (String "5"%char layout') =>
      match take_digits 2 0 s with
      | Some (v, s') => parse_layout layout' s' (mkCivil (cY c) (cM c) (cD c) (ch c) (cm c) v)
      | None => None
      end
  | String a layout' =>
      match s with
      | String b s' => if decide (a = b) then parse_layout layout' s' c else None
      | EmptyString => None
      end
  end.

Definition month_of_Z (m : Z) : option time.Month :=
  match m with
  | 1 => Some time.January | 2 => Some time.February | 3 => Some time.March
  | 4 => Some time.April | 5 => Some time.May | 6 => Some time.June
  | 7 => Some time.July | 8 => Some time.August | 9 => Some time.September
  | 10 => Some time.October | 11 => Some time.November | 12 => Some time.December
  | _ => None
  end%Z.

Definition isLeap (y : Z) : bool :=
  ((y mod 4 =? 0) && (negb (y mod 100 =? 0) || (y mod 400 =? 0)))%Z.

Definition daysIn (m : time.Month) (y : Z) : Z :=
  match m with
  | time.February => if isLeap y then 29 else 28
  | time.April | time.June | time.September | time.November => 30
  | _ => 31
  end%Z.

Definition Parse (layout s : string) : option time.Time :=
  if decide (layout ∈ ["2006-01-02"; "2006-01-02 15:04:05"; "01/02/2006";
                        "01-02-2006"; "2006/01/02"]) then
    match parse_layout layout s (mkCivil 0 1 1 0 0 0) with
    | Some c =>
        match month_of_Z (cM c) with
        | Some m =>
            if decide (1 ≤ cD c ≤ daysIn m (cY c) ∧ ch c < 24 ∧ cm c < 60 ∧ cs c < 60)%Z
            then Some (time.mkTime (cY c) m (cD c) (ch c) (cm c) (cs c) 0)
            else None
        | None => None
        end
    | None => None
    end
  else None.

Definition std : GoStd := Build_GoStd TrimSpace ToLower ParseFloat Atoi Parse.

End GoRef.

(** ** An executable schedule

    One way for a run to go: every transaction is aggregated in the order in
    which it is sent, [range] over a map follows the order of its keys, and
    the sort is an insertion sort. *)

Fixpoint insert_sorted {A} (less : A → A → bool) (x : A) (l : list A) : list A :=
  match l with
  | [] => [x]
  | y :: l' => if less x y then x :: y :: l' else y :: insert_sorted less x l'
  end.

Definition insertion_sort {A} (less : A → A → bool) (xs : list A) : list A :=
  foldr (insert_sorted less) [] xs.

Definition publish_seq (ms : Maps) (now : time.Time) (duration : Z) : DashboardData.t :=
  DashboardData.mk
    (insertion_sort lessCountryRevenue (map_to_list (countryMap ms)).*2)
    (truncate 20 (insertion_sort lessProductFrequency (map_to_list (productMap ms)).*2))
    (insertion_sort lessMonthlySales (map_to_list (monthMap ms)).*2)
    (truncate 30 (insertion_sort lessRegionRevenue (map_to_list (regionMap ms)).*2))
    now duration (Z.of_nat (size (countryMap ms))).

Definition ProcessDataset_seq `{!GoStd} (src : source) (now : time.Time) (duration : Z)
    (d : DashboardData.t) : DashboardData.t * option error :=
  match src with
  | CannotOpen e => (d, Some ("failed to open file: " +:+ e))
  | File (ReadErr e) _ =>
      (d, Some ("error during processing: " +:+ ("failed to read header: " +:+ e)))
  | File (ReadOk _) _ => (publish_seq (aggregateAll (sent src)) now duration, None)
  end.

(** ** Vocabulary of the statements *)

(** All four updates of [aggregateWorker] have one shape: the entry at the
    key of the transaction is created from the transaction when the key is
    new and updated from it otherwise. *)
Definition upsert {A V} (key : A → string) (new : A → V) (upd : V → A → V)
    (x : A) (m : gmap string V) : gmap string V :=
  <[key x := match m !! key x with Some v => upd v x | None => new x end]> m.

(** What the updates do to the entry of one key. *)
Definition entry_step {A V} (new : A → V) (upd : V → A → V)
    (o : option V) (x : A) : option V :=
  Some (match o with Some v => upd v x | None => new x end).

Definition newCountry (tx : Transaction.t) : CountryRevenue.t :=
  CountryRevenue.mk (Transaction.Country tx) (Transaction.ProductName tx)
                    (Transaction.TotalPrice tx) 1.

Definition updCountry (e : CountryRevenue.t) (tx : Transaction.t) : CountryRevenue.t :=
  CountryRevenue.mk (CountryRevenue.Country e) (CountryRevenue.ProductName e)
    (CountryRevenue.TotalRevenue e + Transaction.TotalPrice tx)%float
    (incr64 (CountryRevenue.TransactionCount e)).

Definition newProduct (tx : Transaction.t) : ProductFrequency.t :=
  ProductFrequency.mk (Transaction.ProductName tx) 1 (Transaction.StockQuantity tx).

Definition updProduct (e : ProductFrequency.t) (tx : Transaction.t) : ProductFrequency.t :=
  ProductFrequency.mk (ProductFrequency.ProductName e)
    (incr64 (ProductFrequency.PurchaseCount e))
    (if decide (Transaction.StockQuantity tx > 0)%Z
     then Transaction.StockQuantity tx else ProductFrequency.CurrentStock e).

Definition newMonth (tx : Transaction.t) : MonthlySales.t :=
  MonthlySales.mk (time.Format_January (Transaction.TransactionDate tx))
    (time.Year (Transaction.TransactionDate tx))
    (Transaction.TotalPrice tx) (Transaction.Quantity tx).

Definition updMonth (e : MonthlySales.t) (tx : Transaction.t) : MonthlySales.t :=
  MonthlySales.mk (MonthlySales.Month e) (MonthlySales.Year e)
    (MonthlySales.TotalSales e + Transaction.TotalPrice tx)%float
    (add64 (MonthlySales.SalesVolume e) (Transaction.Quantity tx)).

Definition newRegion (tx : Transaction.t) : RegionRevenue.t :=
  RegionRevenue.mk (Transaction.Region tx) (Transaction.TotalPrice tx)
                   (Transaction.Quantity tx).

Definition updRegion (e : RegionRevenue.t) (tx : Transaction.t) : RegionRevenue.t :=
  RegionRevenue.mk (RegionRevenue.Region e)
    (RegionRevenue.TotalRevenue e + Transaction.TotalPrice tx)%float
    (add64 (RegionRevenue.ItemsSold e) (Transaction.Quantity tx)).

(** The sum of [transaction_count] over a country-product view. *)
Definition sumCounts (view : list CountryRevenue.t) : Z :=
  foldr (λ e acc, CountryRevenue.TransactionCount e + acc)%Z 0%Z view.

(** The records of one product, and of one country-product key. *)
Definition recordsOfProduct (p : string) (txs : list Transaction.t) : list Transaction.t :=
  filter (λ tx, Transaction.ProductName tx = p) txs.

Definition recordsOfKey (k : string) (txs : list Transaction.t) : list Transaction.t :=
  filter (λ tx, countryKey tx = k) txs.

Definition recordsOfMonth (k : string) (txs : list Transaction.t) : list Transaction.t :=
  filter (λ tx, monthKey tx = k) txs.

(** The sum of the quantity fields of a list of records. *)
Definition sumQuantity (txs : list Transaction.t) : Z :=
  foldr (λ tx acc, Transaction.Quantity tx + acc)%Z 0%Z txs.

(** The stock reading of the last record with a positive one; when there is
    none, the reading of the first record. *)
Definition lastPositiveStock (txs : list Transaction.t) : Z :=
  match txs with
  | [] => 0
  | first :: _ =>
      default (Transaction.StockQuantity first)
        (last (filter (λ s, s > 0)%Z (Transaction.StockQuantity <$> txs)))
  end.


(** The transactions the workers hold, between [range] and [mu.Unlock()]. *)
Definition held (ws : list workerPc) : list Transaction.t :=
  omap (λ w, match w with WLocked tx => Some tx | _ => None end) ws.

(** The transactions the reader has still to send. *)
Definition pending `{!GoStd} (header : readResult) (rows : list readResult)
    (r : readerPc) : list Transaction.t :=
  match r with
  | RHeader => sent (File header rows)
  | RLoop hm rest => readCSV_sent hm rest
  | RClosing | RExited => []
  end.

(** Descending order of a view by a float64 field: no entry is followed by
    one with a larger value (and no two neighbours are unordered). *)
Definition descending {A} (f : A → float) (view : list A) : Prop :=
  ∀ i a b, view !! i = Some a → view !! S i = Some b → (f b <=? f a)%float = true.

(** Year descending, and total sales descending within a year. *)
Definition monthlyOrder (view : list MonthlySales.t) : Prop :=
  ∀ i a b, view !! i = Some a → view !! S i = Some b →
    (MonthlySales.Year b < MonthlySales.Year a)%Z ∨
    (MonthlySales.Year b = MonthlySales.Year a ∧
     (MonthlySales.TotalSales b <=? MonthlySales.TotalSales a)%float = true).

(** A float64 that is a number. *)
Definition number (x : float) : Prop := PrimFloat.is_nan x = false.

(** The rank of a float64 that is a number: the order of float64 is the
    lexicographic order of the ranks (the two zeros have one rank). *)
Definition rankSF (f : spec_float) : Z * Z * Z :=
  match f with
  | S754_zero _ | S754_nan => (0, 0, 0)
  | S754_infinity s => (if s then -2 else 2, 0, 0)
  | S754_finite s m e =>
      if s then (-1, - e, - Z.pos m) else (1, e, Z.pos m)
  end%Z.

Definition rank (x : float) : Z * Z * Z := rankSF (Prim2SF x).

Definition rank_lt (a b : Z * Z * Z) : Prop :=
  (a.1.1 < b.1.1 ∨ (a.1.1 = b.1.1 ∧ (a.1.2 < b.1.2 ∨ (a.1.2 = b.1.2 ∧ a.2 < b.2))))%Z.

(** The distinct values of a field among a list of transactions. *)
Definition distinct (f : Transaction.t → string) (txs : list Transaction.t) : gset string :=
  list_to_set (f <$> txs).

(** What holds of every state a run of [ProcessDataset] on [File header rows]
    goes through, started on a processor holding [d0]:
    - no transaction is lost or counted twice: those folded into the maps,
      those the workers hold, those in the channel and those the reader has
      still to send are together the transactions of the file;
    - the channel is closed exactly when the reader is gone;
    - a worker returns only from a closed and drained channel;
    - [done] is closed only when every worker has returned;
    - the caller leaves the processor alone before its [select] fires, and
      when it returns an error;
    - only a failed header read puts an error on [errorCh]. *)
Definition pipeline_inv `{!GoStd} (header : readResult) (rows : list readResult)
    (d0 : DashboardData.t) (st : state) : Prop :=
  (∃ applied,
     maps st = aggregateAll applied ∧
     applied ++ held (workers st) ++ transactionCh st ++ pending header rows (reader st)
       ≡ₚ sent (File header rows)) ∧
  (transactionCh_closed st = true ↔ reader st = RExited) ∧
  (WExited ∈ workers st → transactionCh_closed st = true ∧ transactionCh st = []) ∧
  (done st = true → Forall (λ w, w = WExited) (workers st)) ∧
  workers st ≠ [] ∧
  (∀ e, errorCh st = Some e →
        ∃ e0, header = ReadErr e0 ∧ e = "failed to read header: " +:+ e0) ∧
  match main st with
  | MSelect => dashboardData st = d0
  | MReturned None =>
      ∃ applied now duration,
        applied ≡ₚ sent (File header rows) ∧
        publish (aggregateAll applied) now duration (dashboardData st)
  | MReturned (Some e) =>
      dashboardData st = d0 ∧
      ∃ e0, header = ReadErr e0 ∧
            e = "error during processing: " +:+ ("failed to read header: " +:+ e0)
  end.

(** ** Concrete inputs *)

(** A transaction as the tests of the repository write it: the fields that
    are not named are at their zero value. *)
Definition sale (country product : string) (totalPrice : float) (quantity stock : Z)
    : Transaction.t :=
  Transaction.mk "" time.zero "" country "" "" product "" 0%float quantity
                 totalPrice stock time.zero.

(** A file with the thirteen columns, three valid rows and one row the CSV
    reader rejects. *)
Definition demo_header : list string :=
  ["transaction_id"; "transaction_date"; "user_id"; "country"; "region";
   "product_id"; "product_name"; "category"; "price"; "quantity"; "total_price";
   "stock_quantity"; "added_date"].

Definition demo_rows : list readResult :=
  [ReadOk ["T1"; "2024-01-15"; "U1"; "USA"; "North America"; "P1"; "Laptop";
           "Electronics"; "500"; "2"; "1000"; "100"; "2024-01-01"];
   ReadErr "record on line 3: wrong number of fields";
   ReadOk ["T2"; "01/20/2024"; "U2"; "USA"; "North America"; "P1"; "Laptop";
           "Electronics"; "500"; "1"; "500"; "0"; "2024-01-01"];
   ReadOk ["T3"; "not a date"; "U3"; "UK"; "Europe"; "P2"; "Phone";
           "Electronics"; "800"; "1"; "800"; "150"; "2024-01-01"]].

Definition demo_src : source := File (ReadOk demo_header) demo_rows.

(** The clock of the examples. *)
Definition demo_now : time.Time := time.mkTime 2024 time.March 1 12 0 0 0.
Definition demo_duration : Z := 5000000.

Definition demo_run : DashboardData.t * option error :=
  @ProcessDataset_seq GoRef.std demo_src demo_now demo_duration New.

(** ** The record parser, in the words of the specification *)

(** The value of a field: the converted cell of its column when the column
    is in the header map, the row reaches it and the conversion succeeds, and
    the zero value otherwise. *)
Definition fieldOf `{!GoStd} {V} (record : list string) (headerMap : gmap string nat)
    (name : string) (convert : string → option V) (zero : V) : V :=
  match column record headerMap name with
  | Some s => default zero (convert (strings_TrimSpace s))
  | None => zero
  end.


(** A row whose price cell is not a number and whose total price is 100. *)
Definition row_bad_price : list string :=
  ["T9"; "2024-01-15"; "U9"; "USA"; "North America"; "P1"; "Laptop";
   "Electronics"; "abc"; "2"; "100"; "100"; "2024-01-01"].

Definition demo_headerMap : gmap string nat := @buildHeaderMap GoRef.std demo_header.

(** A file in which one total price cell reads [NaN], which
    [strconv.ParseFloat] accepts. *)
Definition nan_rows : list readResult :=
  [ReadOk ["T1"; "2024-01-15"; "U1"; "USA"; "North America"; "P1"; "Laptop";
           "Electronics"; "500"; "2"; "NaN"; "100"; "2024-01-01"];
   ReadOk ["T2"; "2024-02-20"; "U2"; "UK"; "Europe"; "P2"; "Phone";
           "Electronics"; "800"; "1"; "800"; "150"; "2024-01-01"]].

Definition nan_src : source := File (ReadOk demo_header) nan_rows.

Definition nan_run : DashboardData.t * option error :=
  @ProcessDataset_seq GoRef.std nan_src demo_now demo_duration New.

(** The maps of the example file, folded in the order of the file. *)
Definition demo_maps : Maps := aggregateAll (@sent GoRef.std demo_src).

(** The header map and the rows of the parser tests of the repository
    ([TestParseTransaction], [TestParseTransactionWithMissingFields],
    [TestParseTransactionWithInvalidNumbers]). *)
Definition test_headerMap : gmap string nat :=
  list_to_map
    [("transaction_id", 0); ("user_id", 1); ("country", 2); ("region", 3);
     ("product_id", 4); ("product_name", 5); ("category", 6); ("price", 7);
     ("quantity", 8); ("total_price", 9); ("stock_quantity", 10);
     ("transaction_date", 11); ("added_date", 12)].

Definition test_record : list string :=
  ["TXN001"; "USER001"; "USA"; "North America"; "PROD001"; "Test Product";
   "Electronics"; "99.99"; "2"; "199.98"; "100"; "2024-01-15"; "2024-01-15"].

(** A state in the middle of a run on the example file, with four workers:
    the first row is folded into the maps, the row the CSV reader rejects is
    skipped, the transaction of the third row waits in the channel and the
    last row is still to be read. *)
Definition demo_tx (i : nat) : Transaction.t :=
  nth i (@sent GoRef.std demo_src) Transaction.zero.

Definition demo_mid : state :=
  mkState (RLoop demo_headerMap (drop 3 demo_rows)) [demo_tx 1] false None
          (replicate 4 WRange) false (aggregateAll [demo_tx 0]) MSelect New.

(** The values of Go's [int]. *)
Definition int_range (z : Z) : Prop := (- 2 ^ 63 ≤ z < 2 ^ 63)%Z.

(** The records of one region. *)
Definition recordsOfRegion (r : string) (txs : list Transaction.t) : list Transaction.t :=
  filter (λ tx, Transaction.Region tx = r) txs.

(** The sum of an [int] field over a view, in the integers. *)
Definition sumOf {A} (f : A → Z) (view : list A) : Z :=
  foldr (λ e acc, f e + acc)%Z 0%Z view.

(** Records with quantities 2, 3 and 4 in two regions and two months. *)
Definition qty_txs : list Transaction.t :=
  [Transaction.mk "T1" (time.mkTime 2024 time.January 15 0 0 0 0) "U1" "USA"
     "North America" "P1" "Laptop" "Electronics" 500 2 1000 100 time.zero;
   Transaction.mk "T2" (time.mkTime 2024 time.February 2 0 0 0 0) "U2" "UK"
     "Europe" "P2" "Phone" "Electronics" 800 3 2400 150 time.zero;
   Transaction.mk "T3" (time.mkTime 2024 time.January 20 0 0 0 0) "U3" "Canada"
     "North America" "P1" "Laptop" "Electronics" 500 4 2000 90 time.zero].

(** The column names [parseTransaction] looks up. *)
Definition columns : list string :=
  ["transaction_id"; "user_id"; "product_id"; "product_name"; "category"; "country";
   "region"; "price"; "total_price"; "quantity"; "stock_quantity"; "transaction_date";
   "added_date"].

(** The row of the parser test with its first two cells exchanged and a cell
    of a column the parser does not know at the end, and the header map of
    such a file. *)
Definition swapped_record : list string :=
  ["USER001"; "TXN001"; "USA"; "North America"; "PROD001"; "Test Product";
   "Electronics"; "99.99"; "2"; "199.98"; "100"; "2024-01-15"; "2024-01-15"; "gift"].

Definition swapped_headerMap : gmap string nat :=
  list_to_map
    [("user_id", 0); ("transaction_id", 1); ("country", 2); ("region", 3);
     ("product_id", 4); ("product_name", 5); ("category", 6); ("price", 7);
     ("quantity", 8); ("total_price", 9); ("stock_quantity", 10);
     ("transaction_date", 11); ("added_date", 12); ("notes", 13)].

(** Whether a character occurs in a text. *)
Fixpoint occurs (c : ascii) (s : string) : bool :=
  match s with
  | EmptyString => false
  | String c' s' => if decide (c = c') then true else occurs c s'
  end.

(** ** [LoadSampleData] ([internal/processor/sample_data.go])

    The top-level functions of [math/rand] draw from one shared source: a
    call takes the state of the source and gives a value and the next state.
    [rand.Intn n] is at least 0 and less than [n] (for [n > 0]; the code calls
    it on positive constants only).  Nothing is assumed of the values of
    [rand.Float32] and [rand.Float64]. *)
Class GoRand := {
  rand_Source : Type;
  rand_Float32 : rand_Source → float * rand_Source;
  rand_Float64 : rand_Source → float * rand_Source;
  rand_Intn : Z → rand_Source → Z * rand_Source;
  rand_Intn_range : ∀ n s, (0 < n)%Z → (0 ≤ (rand_Intn n s).1 < n)%Z
}.

(** The slices of names of [LoadSampleData]. *)
Module sample.

Definition countries : list string :=
  ["USA"; "UK"; "Germany"; "France"; "Japan"; "Canada"; "Australia"; "Brazil";
   "India"; "China"].

Definition regions : list string :=
  ["North America"; "Europe"; "Asia Pacific"; "Latin America"; "Middle East";
   "Africa"].

Definition products : list string :=
  ["Wireless Headphones"; "Smartphone"; "Laptop"; "Tablet"; "Smartwatch";
   "Camera"; "Gaming Console"; "Keyboard"; "Mouse"; "Monitor";
   "Speakers"; "Microphone"; "Webcam"; "Router"; "Hard Drive";
   "SSD"; "Graphics Card"; "Processor"; "Memory"; "Motherboard"].

Definition months : list string :=
  ["January"; "February"; "March"; "April"; "May"; "June";
   "July"; "August"; "September"; "October"; "November"; "December"].

End sample.

(** [for i, x := range xs]: the elements with their positions. *)
Definition indexed {A} (xs : list A) : list (nat * A) := zip (seq 0 (length xs)) xs.

(** The constant [0.7] as a [float32], which [rand.Float32()] is compared
    with. *)
Definition float32_0_7 : float := 0x1.666666p-1.

Section SampleData.
Context `{!GoRand}.

(** One turn of the inner loop over the products of a country: from the
    seventh product on a draw decides whether the combination is skipped;
    otherwise an entry is appended.  The float64 arithmetic is the one of a
    target that does not fuse the multiplication and the addition. *)
Definition sampleRevenue (country : string)
    (acc : list CountryRevenue.t * rand_Source) (ip : nat * string)
    : list CountryRevenue.t * rand_Source :=
  let skip :=
    if decide (5 < ip.1)
    then let f := rand_Float32 acc.2 in ((float32_0_7 <? f.1)%float, f.2)
    else (false, acc.2) in
  if skip.1 then (acc.1, skip.2)
  else
    let totalRevenue := rand_Float64 skip.2 in
    let transactionCount := rand_Intn 500 totalRevenue.2 in
    (acc.1 ++ [CountryRevenue.mk country ip.2
                 (totalRevenue.1 * 50000 + 10000)%float
                 (add64 transactionCount.1 50)],
     transactionCount.2).

Definition sampleCountryRevenues (s : rand_Source)
    : list CountryRevenue.t * rand_Source :=
  foldl (λ acc country, foldl (sampleRevenue country) acc (indexed sample.products))
        ([], s) sample.countries.

(** [slice := make([]T, n); for i, x := range xs { slice[i] = f(x) }] *)
Definition fill {A B} (n : nat) (zero : A) (f : B → rand_Source → A * rand_Source)
    (xs : list B) (s : rand_Source) : list A * rand_Source :=
  foldl (λ acc ix, let v := f ix.2 acc.2 in (<[ix.1 := v.1]> acc.1, v.2))
        (replicate n zero, s) (indexed xs).

Definition sampleProduct (product : string) (s : rand_Source)
    : ProductFrequency.t * rand_Source :=
  let purchaseCount := rand_Intn 10000 s in
  let currentStock := rand_Intn 500 purchaseCount.2 in
  (ProductFrequency.mk product (add64 purchaseCount.1 1000) (add64 currentStock.1 50),
   currentStock.2).

Definition sampleMonth (currentYear : Z) (month : string) (s : rand_Source)
    : MonthlySales.t * rand_Source :=
  let totalSales := rand_Float64 s in
  let salesVolume := rand_Intn 5000 totalSales.2 in
  (MonthlySales.mk month currentYear (totalSales.1 * 200000 + 100000)%float
     (add64 salesVolume.1 2000),
   salesVolume.2).

Definition sampleRegion (region : string) (s : rand_Source)
    : RegionRevenue.t * rand_Source :=
  let totalRevenue := rand_Float64 s in
  let itemsSold := rand_Intn 20000 totalRevenue.2 in
  (RegionRevenue.mk region (totalRevenue.1 * 500000 + 200000)%float
     (add64 itemsSold.1 5000),
   itemsSold.2).

(** [LoadSampleData]: every field of the processor's data is assigned, so
    what the processor held before does not matter.  [currentYear] is what
    [time.Now().Year()] returns, [now] what the last [time.Now()] returns and
    [duration] what [time.Since(start)] returns. *)
Definition LoadSampleData (currentYear : Z) (now : time.Time) (duration : Z)
    (s : rand_Source) : DashboardData.t * rand_Source :=
  let countryRevenues := sampleCountryRevenues s in
  let topProducts :=
    fill (length sample.products) (ProductFrequency.mk "" 0 0) sampleProduct
         sample.products countryRevenues.2 in
  let monthlySales :=
    fill 12 (MonthlySales.mk "" 0 0 0) (sampleMonth currentYear)
         sample.months topProducts.2 in
  let topRegions :=
    fill (length sample.regions) (RegionRevenue.mk "" 0 0) sampleRegion
         sample.regions monthlySales.2 in
  (DashboardData.mk countryRevenues.1 topProducts.1 monthlySales.1 topRegions.1
     now duration (Z.of_nat (length countryRevenues.1)),
   topRegions.2).

End SampleData.

(** What the loops of [LoadSampleData] over the countries and the products
    append. *)
Definition appended (country : string) (ips : list (nat * string))
    (new : list CountryRevenue.t) : Prop :=
  (length new ≤ length ips)%nat ∧
  (length (filter (λ ip, ip.1 ≤ 5)%nat ips) ≤ length new)%nat ∧
  Forall (λ e, CountryRevenue.Country e = country ∧
               CountryRevenue.ProductName e ∈ ips.*2 ∧
               (50 ≤ CountryRevenue.TransactionCount e < 550)%Z) new ∧
  (∀ ip, ip ∈ ips → (ip.1 ≤ 5)%nat →
     ∃ e, e ∈ new ∧ CountryRevenue.Country e = country ∧
          CountryRevenue.ProductName e = ip.2).

(** A source for the examples: a linear congruential generator on 64 bits,
    of which the high bits are used. *)
Module RandRef.

Definition next (s : Z) : Z :=
  ((s * 6364136223846793005 + 1442695040888963407) mod 2 ^ 64)%Z.

Definition Float32 (s : Z) : float * Z :=
  ((GoRef.float_of_Z (next s / 2 ^ 40) / GoRef.float_of_Z (2 ^ 24))%float, next s).

Definition Float64 (s : Z) : float * Z :=
  ((GoRef.float_of_Z (next s / 2 ^ 11) / GoRef.float_of_Z (2 ^ 53))%float, next s).

Definition Intn (n : Z) (s : Z) : Z * Z := ((next s / 2 ^ 33) mod n, next s)%Z.

Definition source : GoRand :=
  Build_GoRand Z Float32 Float64 Intn (λ n s, Z.mod_pos_bound (next s / 2 ^ 33) n).

End RandRef.

(** The sample data drawn from the example source started at 42. *)
Definition demo_sample : DashboardData.t :=
  (@LoadSampleData RandRef.source 2024 demo_now demo_duration 42%Z).1.

(** * Properties *)

(** ** Go's [int] *)

Lemma wrap64_id z : (- 2 ^ 63 ≤ z < 2 ^ 63)%Z → wrap64 z = z.
Proof.
  intros Hz. unfold wrap64.
  rewrite Z.mod_small; lia.
Qed.

Lemma incr64_small z : (0 ≤ z < 2 ^ 63 - 1)%Z → incr64 z = (z + 1)%Z.
Proof. intros Hz. unfold incr64, add64. apply wrap64_id. lia. Qed.

(** ** The four updates as upserts *)

Lemma aggregateCountry_upsert tx m :
  aggregateCountry tx m = upsert countryKey newCountry updCountry tx m.
Proof. unfold aggregateCountry, upsert. by destruct (m !! countryKey tx). Qed.

Lemma aggregateProduct_upsert tx m :
  aggregateProduct tx m = upsert Transaction.ProductName newProduct updProduct tx m.
Proof. unfold aggregateProduct, upsert. by destruct (m !! Transaction.ProductName tx). Qed.

Lemma aggregateMonth_upsert tx m :
  aggregateMonth tx m = upsert monthKey newMonth updMonth tx m.
Proof. unfold aggregateMonth, upsert. by destruct (m !! monthKey tx). Qed.

Lemma aggregateRegion_upsert tx m :
  aggregateRegion tx m = upsert Transaction.Region newRegion updRegion tx m.
Proof. unfold aggregateRegion, upsert. by destruct (m !! Transaction.Region tx). Qed.

Section Upsert.
Context {A V : Type} (key : A → string) (new : A → V) (upd : V → A → V).

Lemma upsert_lookup x (m : gmap string V) k :
  upsert key new upd x m !! k =
    if decide (key x = k) then entry_step new upd (m !! k) x else m !! k.
Proof.
  unfold upsert, entry_step. case_decide as Hk.
  - subst k. by rewrite lookup_insert_eq.
  - by rewrite lookup_insert_ne.
Qed.

Lemma foldl_upsert_lookup xs (m : gmap string V) k :
  foldl (λ m x, upsert key new upd x m) m xs !! k =
    foldl (entry_step new upd) (m !! k) (filter (λ x, key x = k) xs).
Proof.
  revert m. induction xs as [|x xs IH]; intros m; simpl; [done|].
  rewrite IH, upsert_lookup. rewrite filter_cons.
  case_decide; simpl; done.
Qed.

Lemma foldl_upsert_dom xs (m : gmap string V) :
  dom (foldl (λ m x, upsert key new upd x m) m xs) = dom m ∪ list_to_set (key <$> xs).
Proof.
  revert m. induction xs as [|x xs IH]; intros m; simpl.
  - by rewrite (right_id_L ∅ (∪)).
  - rewrite IH. unfold upsert. rewrite dom_insert_L.
    by rewrite (comm_L (∪) {[key x]} (dom m)), (assoc_L (∪)).
Qed.

End Upsert.

(** ** The maps of a fold, map by map *)

Lemma aggregateAll_snoc txs tx :
  aggregateAll (txs ++ [tx]) = aggregateWorker_locked (aggregateAll txs) tx.
Proof. unfold aggregateAll. by rewrite foldl_app. Qed.

Lemma foldl_locked_countryMap txs ms :
  countryMap (foldl aggregateWorker_locked ms txs) =
    foldl (λ m tx, upsert countryKey newCountry updCountry tx m) (countryMap ms) txs.
Proof.
  revert ms. induction txs as [|tx txs IH]; intros ms; simpl; [done|].
  rewrite IH. simpl. by rewrite aggregateCountry_upsert.
Qed.

Lemma foldl_locked_productMap txs ms :
  productMap (foldl aggregateWorker_locked ms txs) =
    foldl (λ m tx, upsert Transaction.ProductName newProduct updProduct tx m)
          (productMap ms) txs.
Proof.
  revert ms. induction txs as [|tx txs IH]; intros ms; simpl; [done|].
  rewrite IH. simpl. by rewrite aggregateProduct_upsert.
Qed.

Lemma foldl_locked_monthMap txs ms :
  monthMap (foldl aggregateWorker_locked ms txs) =
    foldl (λ m tx, upsert monthKey newMonth updMonth tx m) (monthMap ms) txs.
Proof.
  revert ms. induction txs as [|tx txs IH]; intros ms; simpl; [done|].
  rewrite IH. simpl. by rewrite aggregateMonth_upsert.
Qed.

Lemma foldl_locked_regionMap txs ms :
  regionMap (foldl aggregateWorker_locked ms txs) =
    foldl (λ m tx, upsert Transaction.Region newRegion updRegion tx m)
          (regionMap ms) txs.
Proof.
  revert ms. induction txs as [|tx txs IH]; intros ms; simpl; [done|].
  rewrite IH. simpl. by rewrite aggregateRegion_upsert.
Qed.

Lemma countryMap_lookup txs k :
  countryMap (aggregateAll txs) !! k =
    foldl (entry_step newCountry updCountry) None (recordsOfKey k txs).
Proof.
  unfold aggregateAll. rewrite foldl_locked_countryMap, foldl_upsert_lookup.
  done.
Qed.

Lemma productMap_lookup txs p :
  productMap (aggregateAll txs) !! p =
    foldl (entry_step newProduct updProduct) None (recordsOfProduct p txs).
Proof.
  unfold aggregateAll. rewrite foldl_locked_productMap, foldl_upsert_lookup.
  done.
Qed.

Lemma monthMap_lookup txs k :
  monthMap (aggregateAll txs) !! k =
    foldl (entry_step newMonth updMonth) None (recordsOfMonth k txs).
Proof.
  unfold aggregateAll. rewrite foldl_locked_monthMap, foldl_upsert_lookup.
  done.
Qed.

Lemma countryMap_dom txs :
  dom (countryMap (aggregateAll txs)) = distinct countryKey txs.
Proof.
  unfold aggregateAll. rewrite foldl_locked_countryMap, foldl_upsert_dom.
  simpl. rewrite dom_empty_L. unfold distinct. by rewrite (left_id_L ∅ (∪)).
Qed.

Lemma productMap_dom txs :
  dom (productMap (aggregateAll txs)) = distinct Transaction.ProductName txs.
Proof.
  unfold aggregateAll. rewrite foldl_locked_productMap, foldl_upsert_dom.
  simpl. rewrite dom_empty_L. unfold distinct. by rewrite (left_id_L ∅ (∪)).
Qed.

Lemma monthMap_dom txs :
  dom (monthMap (aggregateAll txs)) = distinct monthKey txs.
Proof.
  unfold aggregateAll. rewrite foldl_locked_monthMap, foldl_upsert_dom.
  simpl. rewrite dom_empty_L. unfold distinct. by rewrite (left_id_L ∅ (∪)).
Qed.

Lemma regionMap_dom txs :
  dom (regionMap (aggregateAll txs)) = distinct Transaction.Region txs.
Proof.
  unfold aggregateAll. rewrite foldl_locked_regionMap, foldl_upsert_dom.
  simpl. rewrite dom_empty_L. unfold distinct. by rewrite (left_id_L ∅ (∪)).
Qed.

(** The fold does not depend on the order of the records as far as the keys
    go. *)
Lemma distinct_perm f txs txs' : txs ≡ₚ txs' → distinct f txs = distinct f txs'.
Proof. intros Hp. unfold distinct. apply set_eq. intros x. rewrite !elem_of_list_to_set. by rewrite Hp. Qed.
(** ** The transaction counts of the country-product map *)

Lemma sumCounts_perm l l' : l ≡ₚ l' → sumCounts l = sumCounts l'.
Proof.
  induction 1 as [|x l l' _ IH|x y l|l l' l'' _ IH1 _ IH2]; simpl; lia.
Qed.

Lemma sumCounts_cons e l :
  sumCounts (e :: l) = (CountryRevenue.TransactionCount e + sumCounts l)%Z.
Proof. done. Qed.

Lemma sumCounts_nonneg l :
  Forall (λ e, 1 ≤ CountryRevenue.TransactionCount e)%Z l → (0 ≤ sumCounts l)%Z.
Proof. induction 1; simpl; lia. Qed.

Lemma countryMap_counts txs :
  (Z.of_nat (length txs) < 2 ^ 63)%Z →
  map_Forall (λ _ e, 1 ≤ CountryRevenue.TransactionCount e)%Z (countryMap (aggregateAll txs)) ∧
  sumCounts (map_to_list (countryMap (aggregateAll txs))).*2 = Z.of_nat (length txs).
Proof.
  induction txs as [|tx txs IH] using rev_ind; intros Hlen.
  - split; [apply map_Forall_empty|done].
  - rewrite length_app in Hlen. cbn [length] in Hlen.
    destruct IH as [Hpos Hsum]; [lia|].
    rewrite aggregateAll_snoc. simpl.
    set (m := countryMap (aggregateAll txs)) in *.
    rewrite aggregateCountry_upsert. unfold upsert.
    destruct (m !! countryKey tx) as [e|] eqn:Hk.
    + assert (Hdel : map_to_list m ≡ₚ (countryKey tx, e) :: map_to_list (delete (countryKey tx) m))
        by (symmetry; by apply map_to_list_delete).
      assert (Hrest : (0 ≤ sumCounts (map_to_list (delete (countryKey tx) m)).*2)%Z).
      { apply sumCounts_nonneg. apply Forall_fmap, Forall_forall.
        intros [k' e'] Hin. apply elem_of_map_to_list in Hin.
        apply lookup_delete_Some in Hin as [_ Hin]. by apply (Hpos k'). }
      assert (Hsum' : (CountryRevenue.TransactionCount e +
                sumCounts (map_to_list (delete (countryKey tx) m)).*2 = Z.of_nat (length txs))%Z).
      { rewrite <- Hsum. by rewrite (sumCounts_perm _ _ (fmap_Permutation snd _ _ Hdel)). }
      assert (He : (1 ≤ CountryRevenue.TransactionCount e)%Z) by by apply (Hpos _ _ Hk).
      assert (Hincr : incr64 (CountryRevenue.TransactionCount e) =
                (CountryRevenue.TransactionCount e + 1)%Z) by (apply incr64_small; lia).
      split.
      * apply map_Forall_insert_2; [|done]. simpl. rewrite Hincr. lia.
      * rewrite <- insert_delete_eq.
        rewrite (sumCounts_perm _ _ (fmap_Permutation snd _ _
                   (map_to_list_insert _ _ _ (lookup_delete_eq _ _)))).
        rewrite fmap_cons, sumCounts_cons. cbn [snd updCountry CountryRevenue.TransactionCount].
        rewrite Hincr, length_app. cbn [length]. lia.
    + split.
      * apply map_Forall_insert_2; [|done]. done.
      * rewrite (sumCounts_perm _ _ (fmap_Permutation snd _ _
                   (map_to_list_insert _ _ _ Hk))).
        rewrite fmap_cons, sumCounts_cons. cbn [snd newCountry CountryRevenue.TransactionCount].
        rewrite Hsum, length_app. cbn [length]. lia.
Qed.

(** ** The entry of one product *)

Lemma last_filter_snoc {A} (P : A → Prop) `{!∀ x, Decision (P x)} l x :
  last (filter P (l ++ [x])) = if decide (P x) then Some x else last (filter P l).
Proof.
  rewrite filter_app, filter_cons, filter_nil.
  case_decide.
  - by rewrite last_snoc.
  - by rewrite app_nil_r.
Qed.

Lemma lastPositiveStock_snoc r0 rs r :
  lastPositiveStock ((r0 :: rs) ++ [r]) =
    if decide (Transaction.StockQuantity r > 0)%Z then Transaction.StockQuantity r
    else lastPositiveStock (r0 :: rs).
Proof.
  unfold lastPositiveStock. cbn [app].
  change (r0 :: rs ++ [r]) with ((r0 :: rs) ++ [r]).
  rewrite fmap_app.
  change (Transaction.StockQuantity <$> [r]) with [Transaction.StockQuantity r].
  rewrite last_filter_snoc.
  by case_decide.
Qed.

Lemma product_entry rs r0 :
  (Z.of_nat (length (r0 :: rs)) < 2 ^ 63)%Z →
  foldl (entry_step newProduct updProduct) None (r0 :: rs) =
    Some (ProductFrequency.mk (Transaction.ProductName r0)
            (Z.of_nat (length (r0 :: rs)))
            (lastPositiveStock (r0 :: rs))).
Proof.
  induction rs as [|r rs IH] using rev_ind; intros Hlen.
  - cbn [foldl]. unfold entry_step, newProduct, lastPositiveStock.
    cbn [fmap list_fmap]. rewrite filter_cons, filter_nil.
    by case_decide.
  - change (r0 :: rs ++ [r]) with ((r0 :: rs) ++ [r]) in *.
    rewrite length_app in Hlen. cbn [length] in Hlen.
    rewrite foldl_app, IH by (cbn [length]; lia).
    cbn [foldl]. unfold entry_step, updProduct.
    cbn [ProductFrequency.ProductName ProductFrequency.PurchaseCount
         ProductFrequency.CurrentStock].
    rewrite lastPositiveStock_snoc, incr64_small by (cbn [length]; lia).
    do 2 f_equal. rewrite length_app. cbn [length]. lia.
Qed.

Lemma country_entry_count rs r0 :
  (Z.of_nat (length (r0 :: rs)) < 2 ^ 63)%Z →
  ∃ e, foldl (entry_step newCountry updCountry) None (r0 :: rs) = Some e ∧
       CountryRevenue.Country e = Transaction.Country r0 ∧
       CountryRevenue.ProductName e = Transaction.ProductName r0 ∧
       CountryRevenue.TransactionCount e = Z.of_nat (length (r0 :: rs)).
Proof.
  induction rs as [|r rs IH] using rev_ind; intros Hlen.
  - eexists. split; [done|]. done.
  - change (r0 :: rs ++ [r]) with ((r0 :: rs) ++ [r]) in *.
    rewrite length_app in Hlen. cbn [length] in Hlen.
    destruct IH as (e & He & Hc & Hp & Hn); [cbn [length]; lia|].
    rewrite foldl_app, He. cbn [foldl]. unfold entry_step. eexists. split; [done|].
    unfold updCountry.
    cbn [CountryRevenue.Country CountryRevenue.ProductName CountryRevenue.TransactionCount].
    split_and!; [done..|].
    rewrite Hn, incr64_small by (cbn [length]; lia). rewrite length_app. cbn [length]. lia.
Qed.

(** ** The transactions the workers hold *)

Lemma held_app ws1 ws2 : held (ws1 ++ ws2) = held ws1 ++ held ws2.
Proof. apply omap_app. Qed.

Lemma held_cons w ws : held (w :: ws) = held [w] ++ held ws.
Proof. by destruct w. Qed.

Lemma held_insert ws i w w' :
  ws !! i = Some w →
  held ws = held (take i ws) ++ held [w] ++ held (drop (S i) ws) ∧
  held (<[i := w']> ws) = held (take i ws) ++ held [w'] ++ held (drop (S i) ws).
Proof.
  intros Hi. split.
  - rewrite <- (take_drop_middle ws i w Hi) at 1.
    by rewrite held_app, held_cons.
  - rewrite insert_take_drop by by eapply lookup_lt_Some.
    by rewrite held_app, held_cons.
Qed.

Lemma held_receive ws i tx :
  ws !! i = Some WRange → held (<[i := WLocked tx]> ws) ≡ₚ tx :: held ws.
Proof.
  intros Hi. destruct (held_insert ws i _ (WLocked tx) Hi) as [-> ->].
  simpl. solve_Permutation.
Qed.

Lemma held_aggregate ws i tx :
  ws !! i = Some (WLocked tx) → held ws ≡ₚ tx :: held (<[i := WRange]> ws).
Proof.
  intros Hi. destruct (held_insert ws i _ WRange Hi) as [-> ->].
  simpl. solve_Permutation.
Qed.

Lemma held_exit ws i :
  ws !! i = Some WRange → held (<[i := WExited]> ws) = held ws.
Proof.
  intros Hi. by destruct (held_insert ws i _ WExited Hi) as [-> ->].
Qed.

Lemma held_exited ws : Forall (λ w, w = WExited) ws → held ws = [].
Proof. induction 1 as [|w ws -> _ IH]; [done|]. simpl. done. Qed.

Lemma elem_of_insert_inv {A} (l : list A) i x y :
  y ∈ <[i := x]> l → y = x ∨ y ∈ l.
Proof.
  intros Hy. apply list_elem_of_lookup in Hy as [j Hj].
  apply list_lookup_insert_Some in Hj as [(-> & -> & _)|[_ Hj]]; [by left|].
  right. by eapply list_elem_of_lookup_2.
Qed.

Lemma insert_ne_nil {A} (l : list A) i x : l ≠ [] → <[i := x]> l ≠ [].
Proof.
  intros Hl Hnil. apply Hl. apply length_zero_iff_nil.
  rewrite <- (length_insert l i x). by rewrite Hnil.
Qed.

(** ** The invariant of the pipeline *)

Section PipelineInvariant.
Context `{!GoStd}.

Lemma readCSV_sent_ok hm record rest tx :
  parseTransaction record hm = (tx, None) →
  readCSV_sent hm (ReadOk record :: rest) = tx :: readCSV_sent hm rest.
Proof.
  intros Hparse.
  change (readCSV_sent hm (ReadOk record :: rest)) with
    (match parseTransaction record hm with
     | (transaction, None) => transaction :: readCSV_sent hm rest
     | (_, Some _) => readCSV_sent hm rest
     end).
  by rewrite Hparse.
Qed.

Variable header : readResult.
Variable rows : list readResult.
Variable d0 : DashboardData.t.

Lemma held_replicate_range n : held (replicate n WRange) = [].
Proof. by induction n. Qed.

Lemma pipeline_inv_init numWorkers :
  pipeline_inv header rows d0 (init numWorkers d0).
Proof.
  unfold pipeline_inv, init. simpl. split_and!; try done.
  - exists []. split; [done|]. simpl. by rewrite held_replicate_range.
  - intros Hin. apply elem_of_replicate in Hin as [? _]. done.
  - destruct (Pos.to_nat numWorkers) eqn:Hn; [lia|done].
Qed.

Lemma pipeline_inv_step st st' :
  step header rows st st' → pipeline_inv header rows d0 st →
  pipeline_inv header rows d0 st'.
Proof.
  intros Hstep (Hcons & Hclosed & Hexit & Hdone & Hne & Herr & Hmain).
  destruct Hcons as (applied & Hmaps & Hperm).
  destruct Hstep as
    [e q c ws dn ms mn d Hhdr
    |headers q c ec ws dn ms mn d Hhdr
    |hm e rest q c ec ws dn ms mn d
    |hm record rest tx q ec ws dn ms mn d Hparse Hroom
    |hm record rest tx e q c ec ws dn ms mn d Hparse
    |hm q c ec ws dn ms mn d
    |q c ec ws dn ms mn d
    |i tx q c ec ws dn ms mn d r Hi
    |i tx q c ec ws dn ms mn d r Hi
    |i ec ws dn ms mn d r Hi
    |q c ec ws ms mn d r Hall
    |e q c ws dn ms d r
    |now duration d' q c ec ws ms d r Hpub];
    cbn [reader transactionCh transactionCh_closed errorCh workers done maps main
         dashboardData pending sent] in *;
    unfold pipeline_inv;
    cbn [reader transactionCh transactionCh_closed errorCh workers done maps main
         dashboardData pending sent];
    (split_and!; try done;
     try (split; [intros Hc; by apply Hclosed in Hc|done])).
  (* a parse error never happens: [parseTransaction] returns a nil error *)
  - (* header error *)
    exists applied. split; [done|]. by rewrite Hhdr in *.
  - intros e' [= <-]. eauto.
  - (* header read *)
    exists applied. split; [done|]. by rewrite Hhdr in *.
  - (* row error *)
    by exists applied.
  - (* row sent *)
    exists applied. split; [done|].
    rewrite (readCSV_sent_ok _ _ _ _ Hparse) in Hperm. rewrite <- Hperm. solve_Permutation.
  - intros Hin. by destruct (Hexit Hin).
  - (* end of file *)
    by exists applied.
  - (* close *)
    by exists applied.
  - intros Hin. split; [done|]. by destruct (Hexit Hin).
  - (* worker receives *)
    exists applied. split; [done|]. rewrite <- Hperm.
    rewrite (held_receive _ _ _ Hi). solve_Permutation.
  - intros Hin. apply elem_of_insert_inv in Hin as [?|Hin]; [done|].
    by destruct (Hexit Hin).
  - intros Hd. specialize (Hdone Hd).
    eapply Forall_lookup_1 in Hdone; [|exact Hi]. done.
  - by apply insert_ne_nil.
  - (* worker aggregates *)
    exists (applied ++ [tx]). split; [by rewrite aggregateAll_snoc, Hmaps|].
    rewrite <- Hperm. rewrite (held_aggregate _ _ _ Hi). solve_Permutation.
  - intros Hin. apply elem_of_insert_inv in Hin as [?|Hin]; [done|].
    by apply Hexit.
  - intros Hd. specialize (Hdone Hd).
    eapply Forall_lookup_1 in Hdone; [|exact Hi]. done.
  - by apply insert_ne_nil.
  - (* worker exits *)
    exists applied. split; [done|]. by rewrite (held_exit _ _ Hi).
  - intros Hd. specialize (Hdone Hd).
    eapply Forall_lookup_1 in Hdone; [|exact Hi]. done.
  - by apply insert_ne_nil.
  - (* wait *)
    by exists applied.
  - (* select: error *)
    by exists applied.
  - destruct (Herr e eq_refl) as (e0 & -> & ->). eauto.
  - (* select: done *)
    by exists applied.
  - exists applied, now, duration. split; [|by rewrite <- Hmaps].
    specialize (Hdone eq_refl).
    assert (Hin : WExited ∈ ws).
    { destruct ws as [|w ws]; [done|].
      apply Forall_cons in Hdone as [-> _]. left. }
    destruct (Hexit Hin) as [Hc ->].
    apply Hclosed in Hc. subst r. simpl in Hperm.
    rewrite (held_exited _ Hdone) in Hperm.
    by rewrite !app_nil_r in Hperm.
Qed.

Lemma pipeline_inv_rtc numWorkers st :
  rtc (step header rows) (init numWorkers d0) st → pipeline_inv header rows d0 st.
Proof.
  revert st. apply rtc_ind_r.
  - apply pipeline_inv_init.
  - intros st1 st2 _ Hstep IH. by eapply pipeline_inv_step.
Qed.

End PipelineInvariant.

(** ** What a call of [ProcessDataset] can return *)

Section Outcomes.
Context `{!GoStd}.

(** A call that returns nil has published the fold of the transactions of
    the file, taken in some order. *)
Lemma ProcessDataset_nil numWorkers src d d' :
  ProcessDataset numWorkers src d d' None →
  ∃ applied now duration,
    applied ≡ₚ sent src ∧ publish (aggregateAll applied) now duration d'.
Proof.
  destruct src as [e|header rows]; simpl.
  - by intros [_ ?].
  - intros (st & Hrun & Hmain & <-).
    apply (pipeline_inv_rtc _ _ d) in Hrun.
    destruct Hrun as (_ & _ & _ & _ & _ & _ & Hm).
    by rewrite Hmain in Hm.
Qed.

(** A call that returns an error has left the processor as it was, and the
    file could not be opened or its header could not be read. *)
Lemma ProcessDataset_error numWorkers src d d' e :
  ProcessDataset numWorkers src d d' (Some e) →
  d' = d ∧ ((∃ e0, src = CannotOpen e0) ∨ (∃ e0 rows, src = File (ReadErr e0) rows)).
Proof.
  destruct src as [e0|header rows]; simpl.
  - intros [-> _]. eauto.
  - intros (st & Hrun & Hmain & <-).
    apply (pipeline_inv_rtc _ _ d) in Hrun.
    destruct Hrun as (_ & _ & _ & _ & _ & _ & Hm).
    rewrite Hmain in Hm. destruct Hm as (-> & e0 & -> & _). eauto.
Qed.

End Outcomes.

(** ** The insertion sort meets the contract of [sort.Slice] *)

Section InsertionSort.
Context {A : Type} (less : A → A → bool).

Lemma insert_sorted_perm x l : insert_sorted less x l ≡ₚ x :: l.
Proof.
  induction l as [|y l IH]; simpl; [done|].
  destruct (less x y); [done|]. rewrite IH. apply perm_swap.
Qed.

Lemma insertion_sort_perm xs : insertion_sort less xs ≡ₚ xs.
Proof.
  induction xs as [|x xs IH]; simpl; [done|].
  by rewrite insert_sorted_perm, IH.
Qed.

Lemma sorted_by_nil : sorted_by less [].
Proof. intros i j a b _ Hi. by rewrite lookup_nil in Hi. Qed.

Lemma sorted_by_cons a l :
  sorted_by less (a :: l) ↔ Forall (λ b, less b a = false) l ∧ sorted_by less l.
Proof.
  split.
  - intros Hs. split.
    + apply Forall_lookup. intros j b Hj. apply (Hs 0 (S j) a b); [lia|done..].
    + intros i j x y Hij Hi Hj. apply (Hs (S i) (S j) x y); [lia|done..].
  - intros [Hall Hs] i j x y Hij Hi Hj.
    destruct j as [|j]; [lia|]. simpl in Hj.
    destruct i as [|i]; simpl in Hi.
    + injection Hi as <-. by eapply (proj1 (Forall_lookup _ _) Hall).
    + apply (Hs i j x y); [lia|done..].
Qed.

Lemma insert_sorted_sorted xs x l :
  transitive_ordering less xs → x ∈ xs → l ⊆ xs →
  sorted_by less l → sorted_by less (insert_sorted less x l).
Proof.
  intros (Hirr & Htrans & Hneg) Hx.
  induction l as [|y l IH]; intros Hl Hs; simpl.
  - apply sorted_by_cons. split; [constructor|apply sorted_by_nil].
  - assert (Hy : y ∈ xs) by (apply Hl; left).
    assert (Hl' : l ⊆ xs) by (intros z Hz; apply Hl; by right).
    apply sorted_by_cons in Hs as [Hall Hs].
    destruct (less x y) eqn:Hxy.
    + assert (Hyx : less y x = false).
      { destruct (less y x) eqn:Hyx; [|done].
        pose proof (Htrans x y x Hx Hy Hx Hxy Hyx) as Hxx.
        by rewrite (Hirr x Hx) in Hxx. }
      apply sorted_by_cons. split.
      * constructor; [done|].
        apply Forall_forall. intros b Hb.
        apply (Hneg b y x); [by apply Hl'|done|done| |done].
        by eapply (proj1 (Forall_forall _ _) Hall).
      * apply sorted_by_cons. done.
    + apply sorted_by_cons. split; [|by apply IH].
      rewrite insert_sorted_perm. by constructor.
Qed.

Lemma insertion_sort_sorted xs :
  transitive_ordering less xs → sorted_by less (insertion_sort less xs).
Proof.
  intros Hord.
  assert (Hgen : ∀ l, l ⊆ xs → sorted_by less (insertion_sort less l)).
  { induction l as [|x l IH]; intros Hl; simpl; [apply sorted_by_nil|].
    apply (insert_sorted_sorted xs); [done|apply Hl; left| |].
    - intros z Hz. apply Hl. right.
      by rewrite <- (insertion_sort_perm l).
    - apply IH. intros z Hz. apply Hl. by right. }
  by apply Hgen.
Qed.

Lemma insertion_sort_sort_Slice xs : sort_Slice less xs (insertion_sort less xs).
Proof. split; [apply insertion_sort_perm|apply insertion_sort_sorted]. Qed.

End InsertionSort.

Lemma range_values_refl {A} (m : gmap string A) : range_values m (map_to_list m).*2.
Proof. by unfold range_values. Qed.

Lemma publish_seq_publish ms now duration :
  publish ms now duration (publish_seq ms now duration).
Proof.
  unfold publish, publish_seq; simpl. split_and!; try done.
  - eexists. split; [apply range_values_refl|]. apply insertion_sort_sort_Slice.
  - eexists _, _. split; [apply range_values_refl|].
    split; [apply insertion_sort_sort_Slice|done].
  - eexists. split; [apply range_values_refl|]. apply insertion_sort_sort_Slice.
  - eexists _, _. split; [apply range_values_refl|].
    split; [apply insertion_sort_sort_Slice|done].
Qed.

(** ** Every call can return: the sequential schedule is a run *)

Section Schedule.
Context `{!GoStd}.
Variable header : readResult.
Variable rows : list readResult.

Lemma parseTransaction_nil_error record hm :
  parseTransaction record hm = ((parseTransaction record hm).1, None).
Proof. done. Qed.

(** Worker 0 receives and aggregates every transaction as soon as it is
    sent. *)
Lemma run_rows hm rest ws ms ec dn mn d :
  ws !! 0 = Some WRange →
  rtc (step header rows)
    (mkState (RLoop hm rest) [] false ec ws dn ms mn d)
    (mkState RClosing [] false ec ws dn
       (foldl aggregateWorker_locked ms (readCSV_sent hm rest)) mn d).
Proof.
  intros Hw. revert ms.
  induction rest as [|[e|record] rest IH]; intros ms.
  - apply rtc_once. constructor.
  - eapply rtc_l; [apply step_row_error|]. apply IH.
  - rewrite (readCSV_sent_ok _ _ _ _ (parseTransaction_nil_error record hm)).
    eapply rtc_l.
    { eapply step_row_send; [apply parseTransaction_nil_error|].
      unfold transactionCh_capacity. simpl. lia. }
    eapply rtc_l; [by apply (step_worker_receive _ _ 0)|].
    eapply rtc_l.
    { apply (step_worker_aggregate _ _ 0). apply list_lookup_insert_eq.
      by eapply lookup_lt_Some. }
    rewrite list_insert_insert_eq, list_insert_id by done.
    apply IH.
Qed.

(** The workers return one after the other. *)
Lemma run_exit n ws r ec dn ms mn d :
  rtc (step header rows)
    (mkState r [] true ec (ws ++ replicate n WRange) dn ms mn d)
    (mkState r [] true ec (ws ++ replicate n WExited) dn ms mn d).
Proof.
  revert ws. induction n as [|n IH]; intros ws; [done|].
  eapply rtc_l.
  { apply (step_worker_exit _ _ (length ws)). by apply list_lookup_middle. }
  simpl. rewrite insert_app_r_alt, Nat.sub_diag by done. simpl.
  rewrite !(cons_middle _ ws), !app_assoc. apply IH.
Qed.

End Schedule.

(** For every path, processor and clock, [ProcessDataset] has a run. *)
Lemma ProcessDataset_seq_sound `{!GoStd} numWorkers src now duration d :
  ProcessDataset numWorkers src d
    (ProcessDataset_seq src now duration d).1
    (ProcessDataset_seq src now duration d).2.
Proof.
  destruct src as [e|[e|headers] rows]; [done|..];
    unfold ProcessDataset, init; simpl.
  - eexists. split.
    { eapply rtc_l; [by apply step_header_error|].
      apply rtc_once. apply step_select_error. }
    done.
  - eexists. split.
    { eapply rtc_l; [by eapply step_header_ok|].
      etrans.
      { apply run_rows. destruct (Pos.to_nat numWorkers) eqn:Hn; [lia|done]. }
      eapply rtc_l; [apply step_close|].
      etrans; [apply (run_exit _ _ _ [])|]. simpl.
      eapply rtc_l; [apply step_wait, Forall_replicate; done|].
      apply rtc_once. apply (step_select_done _ _ now duration), publish_seq_publish. }
    done.
Qed.

(** * The specification, statement by statement *)

(** ** The published views are the values of the maps *)

Lemma truncate_length {A} limit (xs : list A) :
  length (truncate limit xs) = min limit (length xs).
Proof.
  unfold truncate. case_decide.
  - rewrite length_take. lia.
  - lia.
Qed.

Lemma truncate_subseteq {A} limit (xs : list A) : truncate limit xs ⊆ xs.
Proof.
  unfold truncate. case_decide; [|done].
  intros x Hx. apply elem_of_take in Hx as (i & Hi & _).
  by eapply list_elem_of_lookup_2.
Qed.

Lemma range_values_length {A} (m : gmap string A) vs :
  range_values m vs → length vs = size m.
Proof.
  unfold range_values. intros ->. by rewrite length_fmap, length_map_to_list.
Qed.

Lemma range_values_elem {A} (m : gmap string A) vs e :
  range_values m vs → e ∈ vs → ∃ k, m !! k = Some e.
Proof.
  unfold range_values. intros -> He.
  apply list_elem_of_fmap in He as ([k e'] & -> & He).
  exists k. by apply elem_of_map_to_list.
Qed.

Lemma sortCountryRevenues_perm m out :
  sortCountryRevenues m out → out ≡ₚ (map_to_list m).*2.
Proof. intros (vs & Hvs & Hsort & _). by rewrite Hsort. Qed.

Lemma sortMonthlySales_perm m out :
  sortMonthlySales m out → out ≡ₚ (map_to_list m).*2.
Proof. intros (vs & Hvs & Hsort & _). by rewrite Hsort. Qed.

Lemma sortTopProducts_elem m limit out e :
  sortTopProducts m limit out → e ∈ out → ∃ k, m !! k = Some e.
Proof.
  intros (vs & sorted & Hvs & [Hperm _] & ->) He.
  apply truncate_subseteq in He. rewrite Hperm in He.
  by eapply range_values_elem.
Qed.

Lemma sortTopProducts_length m limit out :
  sortTopProducts m limit out → length out = min limit (size m).
Proof.
  intros (vs & sorted & Hvs & [Hperm _] & ->).
  by rewrite truncate_length, Hperm, (range_values_length m).
Qed.

Lemma sortTopRegions_length m limit out :
  sortTopRegions m limit out → length out = min limit (size m).
Proof.
  intros (vs & sorted & Hvs & [Hperm _] & ->).
  by rewrite truncate_length, Hperm, (range_values_length m).
Qed.

Lemma length_readCSV_sent `{!GoStd} hm rows :
  length (readCSV_sent hm rows) = length (validRows rows).
Proof.
  induction rows as [|[e|record] rows IH]; [done|done|].
  rewrite (readCSV_sent_ok _ _ _ _ (parseTransaction_nil_error record hm)).
  simpl. by rewrite IH.
Qed.

Lemma length_sent `{!GoStd} src : length (sent src) = validRowCount src.
Proof.
  destruct src as [e|[e|headers] rows]; [done..|]. apply length_readCSV_sent.
Qed.

(** ** C1 *)

(** C1. For every run of [ProcessDataset] that completes, the sum of
    [transaction_count] over the entries of the published country-product
    view equals the number of structurally valid rows of the file (a Go [int]
    counts them, so there are fewer than [2^63]); and the update of the
    country-product map inserts an entry with count 1 at a new key and adds 1
    to the count of the entry at a known key. *)
Theorem C1_transaction_count_sum `{!GoStd} numWorkers src d d' :
  (Z.of_nat (validRowCount src) < 2 ^ 63)%Z →
  ProcessDataset numWorkers src d d' None →
  sumCounts (DashboardData.CountryRevenues d') = Z.of_nat (validRowCount src) ∧
  ∀ tx m,
    CountryRevenue.TransactionCount <$> (aggregateCountry tx m !! countryKey tx) =
      Some (match m !! countryKey tx with
            | None => 1%Z
            | Some e => incr64 (CountryRevenue.TransactionCount e)
            end).
Proof.
  intros Hlen Hrun. split.
  - apply ProcessDataset_nil in Hrun as (applied & now & duration & Happlied & Hpub).
    destruct Hpub as (Hcountry & _).
    rewrite (sumCounts_perm _ _ (sortCountryRevenues_perm _ _ Hcountry)).
    rewrite <- length_sent, <- Happlied in *.
    by apply countryMap_counts.
  - intros tx m. unfold aggregateCountry.
    destruct (m !! countryKey tx); by rewrite lookup_insert_eq.
Qed.

Lemma C1_transaction_count_sum_witness :
  (Z.of_nat (validRowCount demo_src) < 2 ^ 63)%Z ∧
  @ProcessDataset GoRef.std 4 demo_src New demo_run.1 None ∧
  sumCounts (DashboardData.CountryRevenues demo_run.1) = 3%Z.
Proof.
  assert (Hrun : @ProcessDataset GoRef.std 4 demo_src New demo_run.1 None)
    by apply (@ProcessDataset_seq_sound GoRef.std).
  assert (Hlen : (Z.of_nat (validRowCount demo_src) < 2 ^ 63)%Z) by done.
  split; [exact Hlen|]. split; [exact Hrun|].
  exact (proj1 (@C1_transaction_count_sum GoRef.std 4 demo_src New demo_run.1 Hlen Hrun)).
Defined.

(** ** The entry of a product, whatever the number of records *)

Lemma product_entry_shape rs r0 :
  ∃ count,
    foldl (entry_step newProduct updProduct) None (r0 :: rs) =
      Some (ProductFrequency.mk (Transaction.ProductName r0) count
              (lastPositiveStock (r0 :: rs))).
Proof.
  induction rs as [|r rs IH] using rev_ind.
  - exists 1%Z. cbn [foldl]. unfold entry_step, newProduct, lastPositiveStock.
    cbn [fmap list_fmap]. rewrite filter_cons, filter_nil.
    by case_decide.
  - destruct IH as [count IH].
    change (r0 :: rs ++ [r]) with ((r0 :: rs) ++ [r]).
    rewrite foldl_app, IH. cbn [foldl]. unfold entry_step, updProduct.
    cbn [ProductFrequency.ProductName ProductFrequency.PurchaseCount
         ProductFrequency.CurrentStock].
    rewrite lastPositiveStock_snoc. eauto.
Qed.

Lemma recordsOfProduct_name p txs r :
  r ∈ recordsOfProduct p txs → Transaction.ProductName r = p.
Proof. unfold recordsOfProduct. intros Hr. by apply list_elem_of_filter in Hr as [? _]. Qed.

(** An entry of the product map is the fold of the records of its key, of
    which there is at least one. *)
Lemma productMap_entry txs p e :
  productMap (aggregateAll txs) !! p = Some e →
  ∃ r0 rs, recordsOfProduct p txs = r0 :: rs ∧
    ProductFrequency.ProductName e = p ∧
    ProductFrequency.CurrentStock e = lastPositiveStock (r0 :: rs) ∧
    ((Z.of_nat (length txs) < 2 ^ 63)%Z →
     ProductFrequency.PurchaseCount e = Z.of_nat (length (r0 :: rs))).
Proof.
  rewrite productMap_lookup.
  destruct (recordsOfProduct p txs) as [|r0 rs] eqn:Hrs; [done|].
  intros He. exists r0, rs. split; [done|].
  assert (Hname : Transaction.ProductName r0 = p).
  { apply (recordsOfProduct_name p txs). rewrite Hrs. left. }
  destruct (product_entry_shape rs r0) as [count Hshape].
  rewrite Hshape in He. injection He as <-. cbn. split_and!; [done..|].
  intros Hlen.
  assert (Hle : (length (r0 :: rs) ≤ length txs)%nat).
  { rewrite <- Hrs. unfold recordsOfProduct. apply length_filter. }
  rewrite product_entry in Hshape by lia. by injection Hshape as <-.
Qed.

(** ** C2 *)

(** C2, as the code has it.  In the product map, whatever the order in which
    the workers fold the records, the purchase count of a product equals the
    number of records with that product name: the entry is inserted with
    count 1 and every further record of the product adds 1; the quantity of
    the records does not enter the count. *)
Theorem C2_purchase_count_counts_records txs p e :
  (Z.of_nat (length txs) < 2 ^ 63)%Z →
  productMap (aggregateAll txs) !! p = Some e →
  ProductFrequency.PurchaseCount e = Z.of_nat (length (recordsOfProduct p txs)) ∧
  ∀ tx m,
    ProductFrequency.PurchaseCount <$>
        (aggregateProduct tx m !! Transaction.ProductName tx) =
      Some (match m !! Transaction.ProductName tx with
            | None => 1%Z
            | Some e => incr64 (ProductFrequency.PurchaseCount e)
            end).
Proof.
  intros Hlen He. split.
  - apply productMap_entry in He as (r0 & rs & -> & _ & _ & Hcount). by apply Hcount.
  - intros tx m. unfold aggregateProduct.
    destruct (m !! Transaction.ProductName tx); by rewrite lookup_insert_eq.
Qed.

Lemma C2_purchase_count_counts_records_witness :
  (Z.of_nat (length [sale "USA" "Laptop" 1000 2 100; sale "USA" "Laptop" 500 1 100])
     < 2 ^ 63)%Z ∧
  productMap (aggregateAll [sale "USA" "Laptop" 1000 2 100; sale "USA" "Laptop" 500 1 100])
    !! "Laptop" = Some (ProductFrequency.mk "Laptop" 2 100) ∧
  ProductFrequency.PurchaseCount (ProductFrequency.mk "Laptop" 2 100) = 2%Z.
Proof.
  assert (Hlen : (Z.of_nat (length [sale "USA" "Laptop" 1000 2 100;
                                     sale "USA" "Laptop" 500 1 100]) < 2 ^ 63)%Z) by done.
  assert (He : productMap (aggregateAll [sale "USA" "Laptop" 1000 2 100;
                                          sale "USA" "Laptop" 500 1 100])
                 !! "Laptop" = Some (ProductFrequency.mk "Laptop" 2 100))
    by (vm_compute; reflexivity).
  split; [exact Hlen|]. split; [exact He|].
  exact (proj1 (C2_purchase_count_counts_records _ _ _ Hlen He)).
Defined.

(** As the specification states it, the property fails: one record of quantity 2
    gives a purchase count of 1, not the sum of the quantities, 2. *)
Lemma C2_counterexample :
  ∃ e, productMap (aggregateAll [sale "USA" "Laptop" 1000 2 100]) !! "Laptop" = Some e ∧
       ProductFrequency.PurchaseCount e = 1%Z ∧
       sumQuantity (recordsOfProduct "Laptop" [sale "USA" "Laptop" 1000 2 100]) = 2%Z ∧
       ProductFrequency.PurchaseCount e ≠
         sumQuantity (recordsOfProduct "Laptop" [sale "USA" "Laptop" 1000 2 100]).
Proof. eexists. split; [vm_compute; reflexivity|]. done. Qed.

(** ** C3 *)




(** ** C5 *)

(** C5.  Two records with different (country, product name) pairs update one
    and the same country-product entry when the texts of their keys
    coincide: country ["Guinea-Bissau"] with product ["Radio"] and country
    ["Guinea"] with product ["Bissau-Radio"] both have the key
    ["Guinea-Bissau-Radio"]; the map holds one entry for the two, under the
    names of the record folded first, with the revenues added and a count of
    2. *)
Theorem C5_distinct_pairs_share_an_entry :
  (Transaction.Country (sale "Guinea-Bissau" "Radio" 40 1 7),
   Transaction.ProductName (sale "Guinea-Bissau" "Radio" 40 1 7)) ≠
  (Transaction.Country (sale "Guinea" "Bissau-Radio" 60 1 9),
   Transaction.ProductName (sale "Guinea" "Bissau-Radio" 60 1 9)) ∧
  countryKey (sale "Guinea-Bissau" "Radio" 40 1 7) =
    countryKey (sale "Guinea" "Bissau-Radio" 60 1 9) ∧
  map_to_list (countryMap (aggregateAll [sale "Guinea-Bissau" "Radio" 40 1 7;
                                         sale "Guinea" "Bissau-Radio" 60 1 9])) =
    [("Guinea-Bissau-Radio", CountryRevenue.mk "Guinea-Bissau" "Radio" 100 2)].
Proof. split_and!; [done|done|]. vm_compute. reflexivity. Qed.

(** Records with the same country and product name always update the same
    entry. *)
Lemma countryKey_same_pair a b :
  Transaction.Country a = Transaction.Country b →
  Transaction.ProductName a = Transaction.ProductName b →
  countryKey a = countryKey b.
Proof. unfold countryKey. by intros -> ->. Qed.

(** ** C4 *)

(** When the file cannot be opened, the call returns an error and the
    processor holds what it held. *)
Lemma ProcessDataset_cannot_open `{!GoStd} numWorkers e d d' err :
  ProcessDataset numWorkers (CannotOpen e) d d' err →
  err = Some ("failed to open file: " +:+ e) ∧ d' = d.
Proof. by intros [-> ->]. Qed.

(** When the header cannot be read, the call either returns the error and
    the processor holds what it held, or it returns nil and the processor
    holds four empty views. *)
Lemma ProcessDataset_header_failure `{!GoStd} numWorkers e rows d d' err :
  ProcessDataset numWorkers (File (ReadErr e) rows) d d' err →
  (err = Some ("error during processing: " +:+ ("failed to read header: " +:+ e)) ∧ d' = d) ∨
  (err = None ∧ DashboardData.CountryRevenues d' = [] ∧ DashboardData.TopProducts d' = [] ∧
   DashboardData.MonthlySales d' = [] ∧ DashboardData.TopRegions d' = [] ∧
   DashboardData.RecordCount d' = 0%Z).
Proof.
  intros Hrun. destruct err as [err|].
  - left. pose proof (ProcessDataset_error _ _ _ _ _ Hrun) as [-> _].
    split; [|done]. destruct Hrun as (st & Hrun & Hmain & _).
    apply (pipeline_inv_rtc _ _ d) in Hrun.
    destruct Hrun as (_ & _ & _ & _ & _ & _ & Hm).
    rewrite Hmain in Hm. by destruct Hm as (_ & e0 & [= <-] & ->).
  - right. split; [done|].
    apply ProcessDataset_nil in Hrun as (applied & now & duration & Happlied & Hpub).
    simpl in Happlied. apply Permutation_nil_r in Happlied as ->.
    destruct Hpub as (Hc & Hp & Hm & Hr & _ & _ & Hn).
    change (aggregateAll []) with emptyMaps in *. simpl in *.
    split_and!.
    + apply sortCountryRevenues_perm in Hc. rewrite map_to_list_empty in Hc.
      by apply Permutation_nil_r in Hc.
    + apply sortTopProducts_length in Hp. rewrite map_size_empty in Hp.
      apply length_zero_iff_nil. lia.
    + apply sortMonthlySales_perm in Hm. rewrite map_to_list_empty in Hm.
      by apply Permutation_nil_r in Hm.
    + apply sortTopRegions_length in Hr. rewrite map_size_empty in Hr.
      apply length_zero_iff_nil. lia.
    + by rewrite Hn, map_size_empty.
Qed.

(** C4.  A run whose header cannot be read can return nil and replace the
    views of the processor by empty ones: the reader sends the error and
    closes [transactionCh], the workers return, [done] is closed, and the
    [select] of the caller, reached with both [errorCh] and [done] ready,
    takes [done]. *)
Theorem C4_header_failure_can_publish `{!GoStd} numWorkers e rows d now duration :
  ProcessDataset numWorkers (File (ReadErr e) rows) d
    (DashboardData.mk [] [] [] [] now duration 0) None.
Proof.
  unfold ProcessDataset, init. eexists. split.
  { eapply rtc_l; [by apply step_header_error|].
    eapply rtc_l; [apply step_close|].
    etrans; [apply (run_exit _ _ _ [])|]. simpl.
    eapply rtc_l; [apply step_wait, Forall_replicate; done|].
    apply rtc_once.
    apply (step_select_done _ _ now duration), (publish_seq_publish emptyMaps). }
  done.
Qed.

(** ** C7 *)

(** C7.  After every run of [ProcessDataset] that completes, the top-products
    view has [min 20 n] entries, where [n] is the number of distinct product
    names among the transactions of the file, and the top-regions view has
    [min 30 r] entries, where [r] is the number of distinct regions; the
    country-product view has one entry for every distinct key and the monthly
    view one for every distinct month key: neither is cut. *)
Theorem C7_view_lengths `{!GoStd} numWorkers src d d' :
  ProcessDataset numWorkers src d d' None →
  length (DashboardData.TopProducts d') =
    min 20 (size (distinct Transaction.ProductName (sent src))) ∧
  length (DashboardData.TopRegions d') =
    min 30 (size (distinct Transaction.Region (sent src))) ∧
  length (DashboardData.CountryRevenues d') = size (distinct countryKey (sent src)) ∧
  length (DashboardData.MonthlySales d') = size (distinct monthKey (sent src)).
Proof.
  intros Hrun.
  apply ProcessDataset_nil in Hrun as (applied & now & duration & Happlied & Hpub).
  destruct Hpub as (Hc & Hp & Hm & Hr & _).
  rewrite <- !(distinct_perm _ _ _ Happlied).
  rewrite <- productMap_dom, <- regionMap_dom, <- countryMap_dom, <- monthMap_dom.
  rewrite !size_dom. split_and!.
  - by apply sortTopProducts_length.
  - by apply sortTopRegions_length.
  - apply sortCountryRevenues_perm in Hc. by rewrite Hc, length_fmap, length_map_to_list.
  - apply sortMonthlySales_perm in Hm. by rewrite Hm, length_fmap, length_map_to_list.
Qed.

Lemma C7_view_lengths_witness :
  @ProcessDataset GoRef.std 4 demo_src New demo_run.1 None ∧
  length (DashboardData.TopProducts demo_run.1) =
    min 20 (size (distinct Transaction.ProductName (@sent GoRef.std demo_src))) ∧
  length (DashboardData.TopRegions demo_run.1) =
    min 30 (size (distinct Transaction.Region (@sent GoRef.std demo_src))) ∧
  length (DashboardData.CountryRevenues demo_run.1) =
    size (distinct countryKey (@sent GoRef.std demo_src)) ∧
  length (DashboardData.MonthlySales demo_run.1) =
    size (distinct monthKey (@sent GoRef.std demo_src)).
Proof.
  assert (Hrun : @ProcessDataset GoRef.std 4 demo_src New demo_run.1 None)
    by apply (@ProcessDataset_seq_sound GoRef.std).
  split; [exact Hrun|].
  exact (@C7_view_lengths GoRef.std 4 demo_src New demo_run.1 Hrun).
Defined.

(** ** The record parser *)

Section ParserProperties.
Context `{!GoStd}.





(** An assignment leaves alone the fields it does not set. *)
Lemma assign_other {V W} (proj : Transaction.t → W) cell (convert : string → option V)
    set tx :
  (∀ v t, proj (set v t) = proj t) →
  proj (assign cell convert set tx) = proj tx.
Proof.
  intros Hset. unfold assign. destruct cell as [s|]; [|done].
  by destruct (convert (strings_TrimSpace s)).
Qed.

Lemma assign_same {V} (proj : Transaction.t → V) cell (convert : string → option V)
    set tx :
  (∀ v t, proj (set v t) = v) →
  proj (assign cell convert set tx) =
    match cell with
    | Some s => default (proj tx) (convert (strings_TrimSpace s))
    | None => proj tx
    end.
Proof.
  intros Hset. unfold assign. destruct cell as [s|]; [|done].
  by destruct (convert (strings_TrimSpace s)).
Qed.

Ltac field_of_parse :=
  unfold parseTransaction, fieldOf; cbn [fst];
  repeat (rewrite assign_other by (by intros ? [])) ;
  rewrite assign_same by (by intros ? []);
  repeat (rewrite assign_other by (by intros ? []));
  reflexivity.









Lemma parse_TotalPrice record hm :
  Transaction.TotalPrice (parseTransaction record hm).1 =
    fieldOf record hm "total_price" strconv_ParseFloat 0%float.
Proof. field_of_parse. Qed.





(** ** C6 *)


End ParserProperties.

(** ** C9 *)

(** C9, as the code has it.  A row whose total price cell does not parse as
    a number has a total price of 0: folded into the country-product map it
    adds 0 to the revenue of its entry (or starts the entry at revenue 0) and
    1 to the count of the entry (or starts it at count 1).  The revenue is
    read from the [total_price] column; the [price] column does not enter
    it. *)
Theorem C9_unparseable_total_price_adds_zero `{!GoStd} record headerMap s tx m :
  parseTransaction record headerMap = (tx, None) →
  column record headerMap "total_price" = Some s →
  strconv_ParseFloat (strings_TrimSpace s) = None →
  Transaction.TotalPrice tx = 0%float ∧
  aggregateCountry tx m !! countryKey tx =
    Some (match m !! countryKey tx with
          | Some e =>
              CountryRevenue.mk (CountryRevenue.Country e) (CountryRevenue.ProductName e)
                (CountryRevenue.TotalRevenue e + 0)%float
                (incr64 (CountryRevenue.TransactionCount e))
          | None =>
              CountryRevenue.mk (Transaction.Country tx) (Transaction.ProductName tx)
                0%float 1
          end).
Proof.
  intros Hparse Hcell Hfail.
  assert (Htotal : Transaction.TotalPrice tx = 0%float).
  { change tx with (tx, @None error).1. rewrite <- Hparse, parse_TotalPrice.
    unfold fieldOf. by rewrite Hcell, Hfail. }
  split; [done|].
  unfold aggregateCountry.
  destruct (m !! countryKey tx); rewrite lookup_insert_eq, Htotal; done.
Qed.

Lemma C9_unparseable_total_price_adds_zero_witness :
  @parseTransaction GoRef.std
      ["T8"; "2024-01-15"; "U8"; "USA"; "North America"; "P1"; "Laptop";
       "Electronics"; "500"; "2"; "n/a"; "100"; "2024-01-01"] demo_headerMap =
    (Transaction.mk "T8" (time.mkTime 2024 time.January 15 0 0 0 0) "U8" "USA"
       "North America" "P1" "Laptop" "Electronics" 500 2 0 100
       (time.mkTime 2024 time.January 1 0 0 0 0), None) ∧
  @column
      ["T8"; "2024-01-15"; "U8"; "USA"; "North America"; "P1"; "Laptop";
       "Electronics"; "500"; "2"; "n/a"; "100"; "2024-01-01"] demo_headerMap
      "total_price" = Some "n/a" ∧
  @strconv_ParseFloat GoRef.std (@strings_TrimSpace GoRef.std "n/a") = None ∧
  aggregateCountry
      (Transaction.mk "T8" (time.mkTime 2024 time.January 15 0 0 0 0) "U8" "USA"
         "North America" "P1" "Laptop" "Electronics" 500 2 0 100
         (time.mkTime 2024 time.January 1 0 0 0 0))
      (countryMap (aggregateAll [sale "USA" "Laptop" 1000 2 100]))
    !! "USA-Laptop" =
    Some (CountryRevenue.mk "USA" "Laptop" (1000 + 0)%float (incr64 1)).
Proof.
  assert (Hparse : @parseTransaction GoRef.std
      ["T8"; "2024-01-15"; "U8"; "USA"; "North America"; "P1"; "Laptop";
       "Electronics"; "500"; "2"; "n/a"; "100"; "2024-01-01"] demo_headerMap =
    (Transaction.mk "T8" (time.mkTime 2024 time.January 15 0 0 0 0) "U8" "USA"
       "North America" "P1" "Laptop" "Electronics" 500 2 0 100
       (time.mkTime 2024 time.January 1 0 0 0 0), None))
    by (vm_compute; reflexivity).
  assert (Hcell : @column
      ["T8"; "2024-01-15"; "U8"; "USA"; "North America"; "P1"; "Laptop";
       "Electronics"; "500"; "2"; "n/a"; "100"; "2024-01-01"] demo_headerMap
      "total_price" = Some "n/a") by (vm_compute; reflexivity).
  assert (Hfail : @strconv_ParseFloat GoRef.std (@strings_TrimSpace GoRef.std "n/a") = None)
    by (vm_compute; reflexivity).
  split; [exact Hparse|]. split; [exact Hcell|]. split; [exact Hfail|].
  exact (proj2 (@C9_unparseable_total_price_adds_zero GoRef.std _ _ _ _
                  (countryMap (aggregateAll [sale "USA" "Laptop" 1000 2 100]))
                  Hparse Hcell Hfail)).
Defined.

(** As the specification states it, the property fails: the price cell of this
    row is not a number, its total price is 100, and the row adds 100, not 0,
    to the revenue of its entry. *)
Lemma C9_counterexample :
  ∃ tx e,
    @parseTransaction GoRef.std row_bad_price demo_headerMap = (tx, None) ∧
    column row_bad_price demo_headerMap "price" = Some "abc" ∧
    @strconv_ParseFloat GoRef.std (@strings_TrimSpace GoRef.std "abc") = None ∧
    aggregateCountry tx (countryMap (aggregateAll [sale "USA" "Laptop" 1000 2 100]))
      !! countryKey tx = Some e ∧
    CountryRevenue.TotalRevenue e = (1000 + 100)%float ∧
    CountryRevenue.TotalRevenue e ≠ (1000 + 0)%float ∧
    CountryRevenue.TransactionCount e = 2%Z.
Proof.
  eexists _, _. split; [vm_compute; reflexivity|].
  split; [vm_compute; reflexivity|].
  split; [vm_compute; reflexivity|].
  split; [vm_compute; reflexivity|].
  split; [done|]. split; [|done].
  intros Heq. apply (f_equal (λ x, PrimFloat.eqb x 1000)) in Heq.
  vm_compute in Heq. discriminate.
Qed.

(** ** The month key *)

Lemma string_app_length s t : String.length (s +:+ t) = String.length s + String.length t.
Proof. induction s as [|c s IH]; simpl; [done|]. by rewrite IH. Qed.

(** Two texts that end in suffixes of the same length are equal only if the
    suffixes are. *)
Lemma string_app_inj_suffix s1 s2 t1 t2 :
  String.length t1 = String.length t2 → s1 +:+ t1 = s2 +:+ t2 → s1 = s2 ∧ t1 = t2.
Proof.
  intros Hlen. revert s2. induction s1 as [|c1 s1 IH]; intros [|c2 s2] Heq.
  - done.
  - exfalso. change (t1 = String c2 (s2 +:+ t2)) in Heq.
    apply (f_equal String.length) in Heq.
    cbn [String.length] in Heq. rewrite string_app_length in Heq. lia.
  - exfalso. change (String c1 (s1 +:+ t1) = t2) in Heq.
    apply (f_equal String.length) in Heq.
    cbn [String.length] in Heq. rewrite string_app_length in Heq. lia.
  - change (String c1 (s1 +:+ t1) = String c2 (s2 +:+ t2)) in Heq.
    injection Heq as -> Heq. destruct (IH _ Heq) as [-> ->]. done.
Qed.

Lemma monthKey_zero tx :
  Transaction.TransactionDate tx = time.zero → monthKey tx = "1-01".
Proof. unfold monthKey. by intros ->. Qed.

Lemma monthKey_zero_inv tx :
  monthKey tx = "1-01" →
  time.Year (Transaction.TransactionDate tx) = 1%Z ∧
  time.Month_of (Transaction.TransactionDate tx) = time.January.
Proof.
  unfold monthKey, Sprintf_d.
  set (y := time.Year (Transaction.TransactionDate tx)).
  intros Hkey.
  assert (Hsplit : ∀ mm, String.length mm = 2 →
            pretty y +:+ "-" +:+ mm = "1-01" → y = 1%Z ∧ mm = "01").
  { intros mm Hmm Heq.
    destruct (string_app_inj_suffix (pretty y) "1" ("-" +:+ mm) "-01") as [Hy Hm].
    - change ("-" +:+ mm) with (String "-" mm). simpl. by rewrite Hmm.
    - done.
    - split; [by apply (inj pretty)|].
      change ("-" +:+ mm) with (String "-" mm) in Hm. by injection Hm. }
  destruct (time.Month_of (Transaction.TransactionDate tx));
    match type of Hkey with
    | _ +:+ _ +:+ ?mm = _ => destruct (Hsplit mm eq_refl Hkey) as [-> Hmm]
    end; vm_compute in Hmm; done.
Qed.

Lemma recordsOfMonth_key k txs r : r ∈ recordsOfMonth k txs → monthKey r = k.
Proof. unfold recordsOfMonth. intros Hr. by apply list_elem_of_filter in Hr as [? _]. Qed.

(** The month name and the year of an entry are those of the first record
    of its key. *)
Lemma month_entry_shape rs r0 :
  ∃ sales volume,
    foldl (entry_step newMonth updMonth) None (r0 :: rs) =
      Some (MonthlySales.mk (time.Format_January (Transaction.TransactionDate r0))
              (time.Year (Transaction.TransactionDate r0)) sales volume).
Proof.
  induction rs as [|r rs IH] using rev_ind.
  - by eexists _, _.
  - destruct IH as (sales & volume & IH).
    change (r0 :: rs ++ [r]) with ((r0 :: rs) ++ [r]).
    rewrite foldl_app, IH. by eexists _, _.
Qed.

(** The entry of the zero date in the map of a fold that holds a record
    without a date. *)
Lemma zero_date_entry txs tx :
  tx ∈ txs → Transaction.TransactionDate tx = time.zero →
  ∃ e, monthMap (aggregateAll txs) !! "1-01" = Some e ∧
       foldl (entry_step newMonth updMonth) None (recordsOfMonth "1-01" txs) = Some e ∧
       MonthlySales.Year e = 1%Z ∧ MonthlySales.Month e = "January".
Proof.
  intros Hin Hzero.
  assert (Hbucket : tx ∈ recordsOfMonth "1-01" txs).
  { unfold recordsOfMonth. apply list_elem_of_filter. split; [|done].
    by apply monthKey_zero. }
  rewrite monthMap_lookup.
  destruct (recordsOfMonth "1-01" txs) as [|r0 rs] eqn:Hrs.
  { by apply elem_of_nil in Hbucket. }
  destruct (month_entry_shape rs r0) as (sales & volume & Hshape).
  rewrite Hshape. eexists. split; [done|]. split; [done|]. cbn.
  assert (Hr0 : monthKey r0 = "1-01").
  { apply (recordsOfMonth_key _ txs). rewrite Hrs. left. }
  apply monthKey_zero_inv in Hr0 as [Hy Hm].
  unfold time.Format_January. by rewrite Hy, Hm.
Qed.

(** ** C10 *)



(** ** The order of float64 on numbers *)

Lemma SFcompare_refl f : f ≠ S754_nan → SFcompare f f = Some Eq.
Proof.
  destruct f as [s|s| |s m e]; intros Hf; try done; simpl.
  - by destruct s.
  - rewrite Z.compare_refl, Pos.compare_cont_refl. by destruct s.
Qed.

Lemma number_Prim2SF x : number x ↔ Prim2SF x ≠ S754_nan.
Proof.
  unfold number, PrimFloat.is_nan. rewrite FloatAxioms.eqb_spec. unfold SFeqb. split.
  - intros Hx Hnan. rewrite Hnan in Hx. done.
  - intros Hx. by rewrite SFcompare_refl.
Qed.

Lemma SFltb_rank f1 f2 :
  f1 ≠ S754_nan → f2 ≠ S754_nan →
  SFltb f1 f2 = true ↔ rank_lt (rankSF f1) (rankSF f2).
Proof.
  unfold SFltb, rank_lt.
  destruct f1 as [s1|s1| |s1 m1 e1], f2 as [s2|s2| |s2 m2 e2];
    intros Hf1 Hf2; try done; simpl;
    try (destruct s1); try (destruct s2); simpl; try (split; [done|lia]);
    try (split; [lia|done]).
  - rewrite Pos.compare_cont_spec. simpl.
    destruct (Z.compare_spec e1 e2), (Pos.compare_spec m1 m2);
      simpl; split; intros; try done; lia.
  - rewrite Pos.compare_cont_spec. simpl.
    destruct (Z.compare_spec e1 e2), (Pos.compare_spec m1 m2);
      simpl; split; intros; try done; lia.
Qed.

Lemma SFleb_rank f1 f2 :
  f1 ≠ S754_nan → f2 ≠ S754_nan →
  SFleb f1 f2 = true ↔ ¬ rank_lt (rankSF f2) (rankSF f1).
Proof.
  unfold SFleb, rank_lt.
  destruct f1 as [s1|s1| |s1 m1 e1], f2 as [s2|s2| |s2 m2 e2];
    intros Hf1 Hf2; try done; simpl;
    try (destruct s1); try (destruct s2); simpl; try (split; [done|lia]);
    try (split; [lia|done]).
  - rewrite Pos.compare_cont_spec. simpl.
    destruct (Z.compare_spec e1 e2), (Pos.compare_spec m1 m2);
      simpl; split; intros; try done; lia.
  - rewrite Pos.compare_cont_spec. simpl.
    destruct (Z.compare_spec e1 e2), (Pos.compare_spec m1 m2);
      simpl; split; intros; try done; lia.
Qed.

Lemma ltb_rank x y :
  number x → number y → (x <? y)%float = true ↔ rank_lt (rank x) (rank y).
Proof.
  intros Hx%number_Prim2SF Hy%number_Prim2SF.
  rewrite FloatAxioms.ltb_spec. by apply SFltb_rank.
Qed.

Lemma ltb_false_leb x y :
  number x → number y → (x <? y)%float = false → (y <=? x)%float = true.
Proof.
  intros Hx Hy Hlt. rewrite FloatAxioms.leb_spec.
  apply SFleb_rank; [by apply number_Prim2SF..|].
  intros Hr. apply (ltb_rank x y) in Hr; [|done..]. by rewrite Hr in Hlt.
Qed.

Lemma rank_lt_irrefl a : ¬ rank_lt a a.
Proof. unfold rank_lt. lia. Qed.

Lemma rank_lt_trans a b c : rank_lt a b → rank_lt b c → rank_lt a c.
Proof. unfold rank_lt. lia. Qed.

Lemma rank_lt_neg_trans a b c : ¬ rank_lt a b → ¬ rank_lt b c → ¬ rank_lt a c.
Proof. unfold rank_lt. lia. Qed.

Lemma ltb_rank_false x y :
  number x → number y → (x <? y)%float = false ↔ ¬ rank_lt (rank x) (rank y).
Proof.
  intros Hx Hy. rewrite <- (ltb_rank x y) by done.
  by destruct (x <? y)%float.
Qed.

(** ** The comparators are transitive orderings when the totals are numbers *)

Lemma float_desc_ordering {A} (f : A → float) xs :
  Forall (λ e, number (f e)) xs →
  transitive_ordering (λ a b, (f b <? f a)%float) xs.
Proof.
  intros Hnum. rewrite Forall_forall in Hnum. split_and!.
  - intros a Ha. apply ltb_rank_false; [by apply Hnum..|]. apply rank_lt_irrefl.
  - intros a b c Ha Hb Hc Hab Hbc.
    apply ltb_rank in Hab; [|by apply Hnum..].
    apply ltb_rank in Hbc; [|by apply Hnum..].
    apply ltb_rank; [by apply Hnum..|]. by eapply rank_lt_trans.
  - intros a b c Ha Hb Hc Hab Hbc.
    apply ltb_rank_false in Hab; [|by apply Hnum..].
    apply ltb_rank_false in Hbc; [|by apply Hnum..].
    apply ltb_rank_false; [by apply Hnum..|]. by eapply rank_lt_neg_trans.
Qed.

Lemma lessMonthlySales_true a b :
  number (MonthlySales.TotalSales a) → number (MonthlySales.TotalSales b) →
  lessMonthlySales a b = true ↔
    (MonthlySales.Year b < MonthlySales.Year a)%Z ∨
    (MonthlySales.Year a = MonthlySales.Year b ∧
     rank_lt (rank (MonthlySales.TotalSales b)) (rank (MonthlySales.TotalSales a))).
Proof.
  intros Ha Hb. unfold lessMonthlySales. case_decide as Hy.
  - rewrite Z.gtb_lt. split; [by left|]. intros [?|[? _]]; [done|lia].
  - rewrite ltb_rank by done. split; [right; split; [lia|done]|].
    intros [?|[_ ?]]; [lia|done].
Qed.

Lemma lessMonthlySales_false a b :
  number (MonthlySales.TotalSales a) → number (MonthlySales.TotalSales b) →
  lessMonthlySales a b = false ↔
    ¬ ((MonthlySales.Year b < MonthlySales.Year a)%Z ∨
       (MonthlySales.Year a = MonthlySales.Year b ∧
        rank_lt (rank (MonthlySales.TotalSales b)) (rank (MonthlySales.TotalSales a)))).
Proof.
  intros Ha Hb. rewrite <- (lessMonthlySales_true a b) by done.
  by destruct (lessMonthlySales a b).
Qed.

Lemma lessMonthlySales_ordering xs :
  Forall (λ e, number (MonthlySales.TotalSales e)) xs →
  transitive_ordering lessMonthlySales xs.
Proof.
  intros Hnum. rewrite Forall_forall in Hnum. split_and!.
  - intros a Ha. apply lessMonthlySales_false; [by apply Hnum..|].
    unfold rank_lt. lia.
  - intros a b c Ha Hb Hc Hab Hbc.
    apply lessMonthlySales_true in Hab; [|by apply Hnum..].
    apply lessMonthlySales_true in Hbc; [|by apply Hnum..].
    apply lessMonthlySales_true; [by apply Hnum..|].
    unfold rank_lt in *. lia.
  - intros a b c Ha Hb Hc Hab Hbc.
    apply lessMonthlySales_false in Hab; [|by apply Hnum..].
    apply lessMonthlySales_false in Hbc; [|by apply Hnum..].
    apply lessMonthlySales_false; [by apply Hnum..|].
    unfold rank_lt in *. lia.
Qed.

(** ** Sorted slices are in descending order *)

Lemma sorted_by_take {A} (less : A → A → bool) n ys :
  sorted_by less ys → sorted_by less (take n ys).
Proof.
  intros Hs i j a b Hij Hi Hj.
  apply lookup_take_Some in Hi as [Hi _]. apply lookup_take_Some in Hj as [Hj _].
  by eapply Hs.
Qed.

Lemma sorted_by_truncate {A} (less : A → A → bool) n ys :
  sorted_by less ys → sorted_by less (truncate n ys).
Proof. unfold truncate. case_decide; [apply sorted_by_take|done]. Qed.

Lemma sorted_by_descending {A} (f : A → float) ys :
  Forall (λ e, number (f e)) ys →
  sorted_by (λ a b, (f b <? f a)%float) ys → descending f ys.
Proof.
  intros Hnum Hs i a b Hi Hj. rewrite Forall_forall in Hnum.
  apply ltb_false_leb.
  - apply Hnum. by eapply list_elem_of_lookup_2.
  - apply Hnum. by eapply list_elem_of_lookup_2.
  - apply (Hs i (S i) a b); [lia|done..].
Qed.

Lemma sorted_by_monthlyOrder ys :
  Forall (λ e, number (MonthlySales.TotalSales e)) ys →
  sorted_by lessMonthlySales ys → monthlyOrder ys.
Proof.
  intros Hnum Hs i a b Hi Hj. rewrite Forall_forall in Hnum.
  assert (Ha : number (MonthlySales.TotalSales a))
    by (apply Hnum; by eapply list_elem_of_lookup_2).
  assert (Hb : number (MonthlySales.TotalSales b))
    by (apply Hnum; by eapply list_elem_of_lookup_2).
  assert (Hless : lessMonthlySales b a = false)
    by (apply (Hs i (S i) a b); [lia|done..]).
  unfold lessMonthlySales in Hless. case_decide as Hy.
  - left. rewrite Z.gtb_ltb in Hless. apply Z.ltb_ge in Hless. lia.
  - right. split; [lia|]. by apply ltb_false_leb.
Qed.

Lemma range_values_number {A} (f : A → float) (m : gmap string A) vs :
  map_Forall (λ _ e, number (f e)) m → range_values m vs →
  Forall (λ e, number (f e)) vs.
Proof.
  intros Hm ->. apply Forall_fmap, Forall_forall.
  intros [k e] He. apply elem_of_map_to_list in He. by apply (Hm k).
Qed.


(** ** C8 *)

(** C8, as the code has it.  When the totals accumulated in the maps are
    numbers (none is NaN), the views published from the maps are sorted: the
    monthly view by year descending and, within a year, by total sales
    descending; the country-product view and the top-regions view by total
    revenue descending.  Every run that completes publishes its maps this
    way ([ProcessDataset_nil]). *)
Theorem C8_views_sorted_when_totals_are_numbers ms now duration d' :
  publish ms now duration d' →
  map_Forall (λ _ e, number (MonthlySales.TotalSales e)) (monthMap ms) →
  map_Forall (λ _ e, number (CountryRevenue.TotalRevenue e)) (countryMap ms) →
  map_Forall (λ _ e, number (RegionRevenue.TotalRevenue e)) (regionMap ms) →
  monthlyOrder (DashboardData.MonthlySales d') ∧
  descending CountryRevenue.TotalRevenue (DashboardData.CountryRevenues d') ∧
  descending RegionRevenue.TotalRevenue (DashboardData.TopRegions d').
Proof.
  intros (Hc & _ & Hm & Hr & _) Hmonth Hcountry Hregion. split_and!.
  - destruct Hm as (sales & Hrange & Hperm & Hsorted).
    pose proof (range_values_number _ _ _ Hmonth Hrange) as Hnum.
    apply sorted_by_monthlyOrder; [by rewrite Hperm|].
    by apply Hsorted, lessMonthlySales_ordering.
  - destruct Hc as (revenues & Hrange & Hperm & Hsorted).
    pose proof (range_values_number _ _ _ Hcountry Hrange) as Hnum.
    apply sorted_by_descending; [by rewrite Hperm|].
    by apply Hsorted, (float_desc_ordering CountryRevenue.TotalRevenue).
  - destruct Hr as (regions & sorted & Hrange & [Hperm Hsorted] & ->).
    pose proof (range_values_number _ _ _ Hregion Hrange) as Hnum.
    apply sorted_by_descending.
    + apply Forall_forall. intros e He. apply truncate_subseteq in He.
      rewrite Hperm in He. by eapply (proj1 (Forall_forall _ _) Hnum).
    + apply sorted_by_truncate.
      by apply Hsorted, (float_desc_ordering RegionRevenue.TotalRevenue).
Qed.

Lemma C8_views_sorted_when_totals_are_numbers_witness :
  publish demo_maps demo_now demo_duration (publish_seq demo_maps demo_now demo_duration) ∧
  map_Forall (λ _ e, number (MonthlySales.TotalSales e)) (monthMap demo_maps) ∧
  map_Forall (λ _ e, number (CountryRevenue.TotalRevenue e)) (countryMap demo_maps) ∧
  map_Forall (λ _ e, number (RegionRevenue.TotalRevenue e)) (regionMap demo_maps) ∧
  monthlyOrder (DashboardData.MonthlySales
                  (publish_seq demo_maps demo_now demo_duration)) ∧
  descending CountryRevenue.TotalRevenue
    (DashboardData.CountryRevenues (publish_seq demo_maps demo_now demo_duration)) ∧
  descending RegionRevenue.TotalRevenue
    (DashboardData.TopRegions (publish_seq demo_maps demo_now demo_duration)).
Proof.
  assert (Hpub : publish demo_maps demo_now demo_duration
                   (publish_seq demo_maps demo_now demo_duration))
    by apply publish_seq_publish.
  assert (Hm : map_Forall (λ _ e, number (MonthlySales.TotalSales e)) (monthMap demo_maps)).
  { apply map_Forall_to_list. vm_compute. repeat constructor. }
  assert (Hc : map_Forall (λ _ e, number (CountryRevenue.TotalRevenue e))
                 (countryMap demo_maps)).
  { apply map_Forall_to_list. vm_compute. repeat constructor. }
  assert (Hr : map_Forall (λ _ e, number (RegionRevenue.TotalRevenue e))
                 (regionMap demo_maps)).
  { apply map_Forall_to_list. vm_compute. repeat constructor. }
  split; [exact Hpub|]. split; [exact Hm|]. split; [exact Hc|]. split; [exact Hr|].
  exact (C8_views_sorted_when_totals_are_numbers _ _ _ _ Hpub Hm Hc Hr).
Defined.

(** As the specification states it, the property fails: on a file with a total
    price of NaN a run completes with a country-product view that is not in
    descending order, and no reordering of that view is. *)
Lemma C8_counterexample :
  @ProcessDataset GoRef.std 4 nan_src New nan_run.1 None ∧
  ¬ descending CountryRevenue.TotalRevenue (DashboardData.CountryRevenues nan_run.1) ∧
  (∀ view, view ≡ₚ DashboardData.CountryRevenues nan_run.1 →
           ¬ descending CountryRevenue.TotalRevenue view).
Proof.
  split; [apply (@ProcessDataset_seq_sound GoRef.std)|].
  assert (Hview : DashboardData.CountryRevenues nan_run.1 =
              [CountryRevenue.mk "USA" "Laptop" nan 1;
               CountryRevenue.mk "UK" "Phone" 800 1]) by (vm_compute; reflexivity).
  assert (Hall : ∀ view, view ≡ₚ DashboardData.CountryRevenues nan_run.1 →
                   ¬ descending CountryRevenue.TotalRevenue view).
  { intros view Hperm Hdesc.
    rewrite Hview in Hperm. symmetry in Hperm.
    apply Permutation_length_2_inv in Hperm as [->| ->].
    - specialize (Hdesc 0 _ _ eq_refl eq_refl). vm_compute in Hdesc. discriminate.
    - specialize (Hdesc 0 _ _ eq_refl eq_refl). vm_compute in Hdesc. discriminate. }
  split; [|exact Hall]. apply Hall. reflexivity.
Qed.

(** * The published views, run by run

    The properties of the fold, read off the views a completed run
    publishes. *)

Section PublishedViews.
Context `{!GoStd}.

(** Every entry of the top-products view is the entry of its product in the
    map the workers built. *)
Lemma published_products numWorkers src d d' :
  ProcessDataset numWorkers src d d' None →
  ∃ applied, applied ≡ₚ sent src ∧
    ∀ e, e ∈ DashboardData.TopProducts d' →
         productMap (aggregateAll applied) !! ProductFrequency.ProductName e = Some e.
Proof.
  intros Hrun.
  apply ProcessDataset_nil in Hrun as (applied & now & duration & Happlied & Hpub).
  exists applied. split; [done|]. intros e He.
  destruct Hpub as (_ & Hp & _).
  destruct (sortTopProducts_elem _ _ _ _ Hp He) as [k Hk].
  pose proof (productMap_entry _ _ _ Hk) as (_ & _ & _ & <- & _). done.
Qed.

(** The purchase count of a published product is the number of valid rows
    with that product name. *)
Lemma published_purchase_count numWorkers src d d' e :
  (Z.of_nat (validRowCount src) < 2 ^ 63)%Z →
  ProcessDataset numWorkers src d d' None →
  e ∈ DashboardData.TopProducts d' →
  ProductFrequency.PurchaseCount e =
    Z.of_nat (length (recordsOfProduct (ProductFrequency.ProductName e) (sent src))).
Proof.
  intros Hlen Hrun He.
  destruct (published_products _ _ _ _ Hrun) as (applied & Happlied & Hentries).
  specialize (Hentries e He).
  apply productMap_entry in Hentries as (r0 & rs & Hrs & _ & _ & Hcount).
  rewrite Hcount by (by rewrite Happlied, length_sent).
  unfold recordsOfProduct in *. by rewrite <- Happlied, Hrs.
Qed.

(** The stock of a published product is the last positive reading in the
    order in which the workers folded the rows. *)
Lemma published_current_stock numWorkers src d d' :
  ProcessDataset numWorkers src d d' None →
  ∃ applied, applied ≡ₚ sent src ∧
    ∀ e, e ∈ DashboardData.TopProducts d' →
         ProductFrequency.CurrentStock e =
           lastPositiveStock (recordsOfProduct (ProductFrequency.ProductName e) applied).
Proof.
  intros Hrun.
  destruct (published_products _ _ _ _ Hrun) as (applied & Happlied & Hentries).
  exists applied. split; [done|]. intros e He.
  specialize (Hentries e He).
  by apply productMap_entry in Hentries as (r0 & rs & -> & _ & -> & _).
Qed.

(** A completed run that read a row without a date publishes a monthly entry
    for year 1, January. *)
Lemma published_zero_date_bucket numWorkers src d d' tx :
  ProcessDataset numWorkers src d d' None →
  tx ∈ sent src → Transaction.TransactionDate tx = time.zero →
  ∃ e, e ∈ DashboardData.MonthlySales d' ∧
       MonthlySales.Year e = 1%Z ∧ MonthlySales.Month e = "January".
Proof.
  intros Hrun Hin Hzero.
  apply ProcessDataset_nil in Hrun as (applied & now & duration & Happlied & Hpub).
  rewrite <- Happlied in Hin.
  destruct (zero_date_entry applied tx Hin Hzero) as (e & He & _ & Hy & Hm).
  exists e. split; [|done].
  destruct Hpub as (_ & _ & Hmonthly & _).
  rewrite (sortMonthlySales_perm _ _ Hmonthly).
  apply list_elem_of_fmap. exists ("1-01", e). split; [done|].
  by apply elem_of_map_to_list.
Qed.

End PublishedViews.

(** * The tests of the repository, evaluated on the embedding *)

(** [TestParseTransaction]; the float64 nearest to 99.99 is
    [0x1.8ff5c28f5c28fp+6] and the one nearest to 199.98 is
    [0x1.8ff5c28f5c28fp+7]. *)
Example test_ParseTransaction :
  @parseTransaction GoRef.std test_record test_headerMap =
    (Transaction.mk "TXN001" (time.mkTime 2024 time.January 15 0 0 0 0) "USER001"
       "USA" "North America" "PROD001" "Test Product" "Electronics"
       0x1.8ff5c28f5c28fp+6 2 0x1.8ff5c28f5c28fp+7 100 (time.mkTime 2024 time.January 15 0 0 0 0), None).
Proof. vm_compute. reflexivity. Qed.

(** [TestParseTransactionWithMissingFields] *)
Example test_ParseTransactionWithMissingFields :
  @parseTransaction GoRef.std ["TXN001"; "USER001"; "USA"]
      (list_to_map [("transaction_id", 0); ("user_id", 1); ("country", 2)]) =
    (Transaction.mk "TXN001" time.zero "USER001" "USA" "" "" "" "" 0 0 0 0 time.zero,
     None).
Proof. vm_compute. reflexivity. Qed.

(** [TestParseTransactionWithInvalidNumbers] *)
Example test_ParseTransactionWithInvalidNumbers :
  @parseTransaction GoRef.std
      ["invalid_price"; "invalid_qty"; "invalid_total"; "invalid_stock"]
      (list_to_map [("price", 0); ("quantity", 1); ("total_price", 2);
                    ("stock_quantity", 3)]) =
    (Transaction.zero, None).
Proof. vm_compute. reflexivity. Qed.

(** The scenario of the specification: the rows (USA, Laptop, 1000, 2),
    (USA, Laptop, 500, 1), (UK, Phone, 800, 1), between them a row the reader
    rejects, run through the whole pipeline. *)
Example demo_run_published :
  demo_run =
    (DashboardData.mk
       [CountryRevenue.mk "USA" "Laptop" 1500 2; CountryRevenue.mk "UK" "Phone" 800 1]
       [ProductFrequency.mk "Laptop" 2 100; ProductFrequency.mk "Phone" 1 150]
       [MonthlySales.mk "January" 2024 1500 3; MonthlySales.mk "January" 1 800 1]
       [RegionRevenue.mk "North America" 1500 3; RegionRevenue.mk "Europe" 800 1]
       demo_now demo_duration 2,
     None).
Proof. vm_compute. reflexivity. Qed.

(** * The pipeline, at every moment of a run *)

Lemma demo_mid_reachable :
  rtc (@step GoRef.std (ReadOk demo_header) demo_rows) (init 4 New) demo_mid.
Proof.
  unfold init, demo_mid.
  eapply rtc_l; [by eapply step_header_ok|].
  eapply rtc_l.
  { eapply (step_row_send _ _ _ _ _ (demo_tx 0)); [reflexivity|].
    unfold transactionCh_capacity. simpl. lia. }
  eapply rtc_l; [by apply (step_worker_receive _ _ 0)|].
  eapply rtc_l; [by apply (step_worker_aggregate _ _ 0 (demo_tx 0))|].
  eapply rtc_l; [apply step_row_error|].
  eapply rtc_l.
  { eapply (step_row_send _ _ _ _ _ (demo_tx 1)); [reflexivity|].
    unfold transactionCh_capacity. simpl. lia. }
  apply rtc_refl.
Qed.

(** X1.  At every moment of a run of [ProcessDataset] on a file, whatever the
    interleaving of the reader and the workers, the transactions folded into
    the maps, those the workers hold, those buffered in [transactionCh] and
    those the reader has still to send are together exactly the transactions
    of the valid rows of the file: none is lost and none is aggregated
    twice. *)
Theorem X1_no_transaction_lost_or_duplicated `{!GoStd} numWorkers header rows d st :
  rtc (step header rows) (init numWorkers d) st →
  ∃ applied,
    maps st = aggregateAll applied ∧
    applied ++ held (workers st) ++ transactionCh st ++ pending header rows (reader st)
      ≡ₚ sent (File header rows).
Proof.
  intros Hrun. apply (pipeline_inv_rtc _ _ d) in Hrun. by destruct Hrun as (? & _).
Qed.

Lemma X1_no_transaction_lost_or_duplicated_witness :
  rtc (@step GoRef.std (ReadOk demo_header) demo_rows) (init 4 New) demo_mid ∧
  ∃ applied,
    maps demo_mid = aggregateAll applied ∧
    applied ++ held (workers demo_mid) ++ transactionCh demo_mid ++
      @pending GoRef.std (ReadOk demo_header) demo_rows (reader demo_mid)
      ≡ₚ @sent GoRef.std (File (ReadOk demo_header) demo_rows).
Proof.
  split; [exact demo_mid_reachable|].
  exact (@X1_no_transaction_lost_or_duplicated GoRef.std 4 _ _ New demo_mid
           demo_mid_reachable).
Defined.

(** X2.  Once the header row of the file is read, [ProcessDataset] never
    returns an error: a row the CSV reader rejects is skipped and the run
    goes on, whatever the rows and the interleaving. *)
Theorem X2_rows_never_fail_a_run `{!GoStd} numWorkers headers rows d d' err :
  ProcessDataset numWorkers (File (ReadOk headers) rows) d d' err → err = None.
Proof.
  intros Hrun. destruct err as [e|]; [|done].
  apply ProcessDataset_error in Hrun as (_ & [(? & [=])|(? & ? & [=])]).
Qed.

Lemma X2_rows_never_fail_a_run_witness :
  @ProcessDataset GoRef.std 4 (File (ReadOk demo_header) demo_rows) New
     demo_run.1 demo_run.2 ∧
  demo_run.2 = None.
Proof.
  assert (Hrun : @ProcessDataset GoRef.std 4 (File (ReadOk demo_header) demo_rows) New
                   demo_run.1 demo_run.2)
    by apply (@ProcessDataset_seq_sound GoRef.std 4 demo_src).
  split; [exact Hrun|].
  exact (@X2_rows_never_fail_a_run GoRef.std 4 _ _ New _ _ Hrun).
Defined.

(** X3.  When [ProcessDataset] returns an error, the processor holds what it
    held before the call, and the error is one of two: the file could not be
    opened, with the message [failed to open file: ...], or its header row
    could not be read, with the message
    [error during processing: failed to read header: ...]. *)
Theorem X3_error_leaves_the_processor_unchanged `{!GoStd} numWorkers src d d' e :
  ProcessDataset numWorkers src d d' (Some e) →
  d' = d ∧
  ((∃ e0, src = CannotOpen e0 ∧ e = "failed to open file: " +:+ e0) ∨
   (∃ e0 rows, src = File (ReadErr e0) rows ∧
      e = "error during processing: " +:+ ("failed to read header: " +:+ e0))).
Proof.
  destruct src as [e0|header rows]; simpl.
  - intros [-> [= ->]]. split; [done|]. left. eauto.
  - intros (st & Hrun & Hmain & <-).
    apply (pipeline_inv_rtc _ _ d) in Hrun.
    destruct Hrun as (_ & _ & _ & _ & _ & _ & Hm).
    rewrite Hmain in Hm. destruct Hm as (-> & e0 & -> & ->).
    split; [done|]. right. eauto.
Qed.

Lemma X3_error_leaves_the_processor_unchanged_witness :
  @ProcessDataset GoRef.std 4 (CannotOpen "open data.csv: no such file or directory")
     demo_run.1 demo_run.1
     (Some "failed to open file: open data.csv: no such file or directory") ∧
  demo_run.1 = demo_run.1.
Proof.
  assert (Hrun : @ProcessDataset GoRef.std 4
                   (CannotOpen "open data.csv: no such file or directory")
                   demo_run.1 demo_run.1
                   (Some "failed to open file: open data.csv: no such file or directory"))
    by done.
  split; [exact Hrun|].
  exact (proj1 (@X3_error_leaves_the_processor_unchanged GoRef.std 4 _ _ _ _ Hrun)).
Defined.

(** ** The channel and the workers *)

Lemma held_length ws : (length (held ws) ≤ length ws)%nat.
Proof.
  induction ws as [|[| |] ws IH]; simpl; lia.
Qed.

Lemma pipeline_sizes `{!GoStd} numWorkers header rows d st :
  rtc (step header rows) (init numWorkers d) st →
  (length (transactionCh st) ≤ transactionCh_capacity)%nat ∧
  length (workers st) = Pos.to_nat numWorkers.
Proof.
  revert st. apply rtc_ind_r.
  - simpl. rewrite length_replicate. unfold transactionCh_capacity. lia.
  - intros st1 st2 _ Hstep [IHq IHw].
    destruct Hstep; cbn [transactionCh workers length] in *;
      rewrite ?length_insert, ?length_app; cbn [length] in *; lia.
Qed.

(** X4.  At every moment of a run, [transactionCh] buffers at most its
    capacity of 1000 transactions and each of the [runtime.NumCPU()] workers
    holds at most one, so at most [1000 + runtime.NumCPU()] parsed
    transactions are in flight; and while the reader is in its loop over the
    rows the channel is open, so no send of [readCSV] meets a closed
    channel. *)
Theorem X4_transactions_in_flight_are_bounded `{!GoStd} numWorkers header rows d st :
  rtc (step header rows) (init numWorkers d) st →
  (length (transactionCh st) ≤ 1000)%nat ∧
  length (workers st) = Pos.to_nat numWorkers ∧
  (length (held (workers st) ++ transactionCh st) ≤ 1000 + Pos.to_nat numWorkers)%nat ∧
  (∀ headerMap rest, reader st = RLoop headerMap rest → transactionCh_closed st = false).
Proof.
  intros Hrun.
  destruct (pipeline_sizes _ _ _ _ _ Hrun) as [Hq Hw].
  apply (pipeline_inv_rtc _ _ d) in Hrun.
  destruct Hrun as (_ & Hclosed & _).
  unfold transactionCh_capacity in Hq. split_and!; [done..| |].
  - rewrite length_app. pose proof (held_length (workers st)). lia.
  - intros hm rest Hr. destruct (transactionCh_closed st); [|done].
    destruct Hclosed as [Hc _]. rewrite Hc in Hr by done. done.
Qed.

Lemma X4_transactions_in_flight_are_bounded_witness :
  rtc (@step GoRef.std (ReadOk demo_header) demo_rows) (init 4 New) demo_mid ∧
  (length (transactionCh demo_mid) ≤ 1000)%nat ∧
  transactionCh_closed demo_mid = false.
Proof.
  split; [exact demo_mid_reachable|].
  pose proof (@X4_transactions_in_flight_are_bounded GoRef.std 4 _ _ New demo_mid
                demo_mid_reachable) as (Hq & _ & _ & Hc).
  split; [exact Hq|]. exact (Hc _ _ eq_refl).
Defined.

(** ** No deadlock *)

Section Progress.
Context `{!GoStd}.
Variable header : readResult.
Variable rows : list readResult.

(** Every worker that holds a transaction can aggregate it. *)
Lemma run_unlock suf pre r q c ec dn ms mn d :
  ∃ suf' ms',
    rtc (step header rows)
      (mkState r q c ec (pre ++ suf) dn ms mn d)
      (mkState r q c ec (pre ++ suf') dn ms' mn d) ∧
    Forall (λ w, w = WRange ∨ w = WExited) suf' ∧
    (WExited ∈ suf' → WExited ∈ suf) ∧
    length suf' = length suf.
Proof.
  revert pre ms. induction suf as [|w suf IH]; intros pre ms.
  - exists [], ms. split_and!; done.
  - destruct w as [|tx|].
    + destruct (IH (pre ++ [WRange]) ms) as (suf' & ms' & Hrun & Hall & Hex & Hlen).
      exists (WRange :: suf'), ms'.
      rewrite !(cons_middle _ pre), !app_assoc. split_and!; [done| | |].
      * constructor; [by left|done].
      * intros [[=]|?]%elem_of_cons. right. auto.
      * simpl. by rewrite Hlen.
    + destruct (IH (pre ++ [WRange]) (aggregateWorker_locked ms tx))
        as (suf' & ms' & Hrun & Hall & Hex & Hlen).
      exists (WRange :: suf'), ms'. split_and!.
      * eapply rtc_l.
        { apply (step_worker_aggregate _ _ (length pre) tx). by apply list_lookup_middle. }
        rewrite insert_app_r_alt, Nat.sub_diag by done. simpl.
        by rewrite !(cons_middle _ pre), !app_assoc.
      * constructor; [by left|done].
      * intros [[=]|?]%elem_of_cons. right. auto.
      * simpl. by rewrite Hlen.
    + destruct (IH (pre ++ [WExited]) ms) as (suf' & ms' & Hrun & Hall & Hex & Hlen).
      exists (WExited :: suf'), ms'.
      rewrite !(cons_middle _ pre), !app_assoc. split_and!; [done| | |].
      * constructor; [by right|done].
      * intros _. left.
      * simpl. by rewrite Hlen.
Qed.

(** A worker at [range] can drain the channel. *)
Lemma run_drain q r c ec ws dn ms mn d :
  ws !! 0 = Some WRange →
  rtc (step header rows)
    (mkState r q c ec ws dn ms mn d)
    (mkState r [] c ec ws dn (foldl aggregateWorker_locked ms q) mn d).
Proof.
  intros Hw. revert ms. induction q as [|tx q IH]; intros ms; [done|].
  eapply rtc_l; [by apply (step_worker_receive _ _ 0)|].
  eapply rtc_l.
  { apply (step_worker_aggregate _ _ 0). apply list_lookup_insert_eq.
    by eapply lookup_lt_Some. }
  rewrite list_insert_insert_eq, list_insert_id by done.
  apply IH.
Qed.

(** From a closed and drained channel the workers at [range] return. *)
Lemma run_exit_all suf pre r ec dn ms mn d :
  Forall (λ w, w = WRange ∨ w = WExited) suf →
  rtc (step header rows)
    (mkState r [] true ec (pre ++ suf) dn ms mn d)
    (mkState r [] true ec (pre ++ replicate (length suf) WExited) dn ms mn d).
Proof.
  revert pre. induction suf as [|w suf IH]; intros pre Hall; [done|].
  apply Forall_cons in Hall as [Hw Hall]. simpl.
  rewrite !(cons_middle _ pre), !app_assoc.
  destruct Hw as [->| ->].
  - eapply rtc_l.
    { apply (step_worker_exit _ _ (length pre)).
      rewrite <- app_assoc. by apply list_lookup_middle. }
    rewrite <- (app_assoc pre [WRange] suf).
    rewrite insert_app_r_alt, Nat.sub_diag by done. simpl.
    rewrite (cons_middle _ pre), app_assoc. by apply IH.
  - by apply IH.
Qed.

(** Once the channel is closed and drained and no worker holds a
    transaction, the caller can return nil. *)
Lemma run_finish ws r ms d :
  Forall (λ w, w = WRange ∨ w = WExited) ws →
  ∃ st', rtc (step header rows) (mkState r [] true None ws false ms MSelect d) st' ∧
         main st' = MReturned None.
Proof.
  intros Hall. eexists. split.
  { etrans; [by apply (run_exit_all ws [])|]. simpl.
    eapply rtc_l; [apply step_wait, Forall_replicate; done|].
    apply rtc_once.
    apply (step_select_done _ _ time.zero 0), publish_seq_publish. }
  done.
Qed.

End Progress.

(** X5.  [ProcessDataset] cannot deadlock: from every state a run can reach,
    whatever the reader and the workers have done so far, the goroutines can
    go on until the caller returns. *)
Theorem X5_a_run_can_always_return `{!GoStd} numWorkers header rows d st :
  rtc (step header rows) (init numWorkers d) st →
  ∃ st' err, rtc (step header rows) st st' ∧ main st' = MReturned err.
Proof.
  intros Hrun.
  pose proof (pipeline_inv_rtc _ _ d _ _ Hrun)
    as (_ & Hclosed & Hexit & _ & Hne & _ & _).
  destruct st as [r q c ec ws dn ms mn d1]; cbn in Hclosed, Hexit, Hne.
  destruct mn as [|err]; [|by exists (mkState r q c ec ws dn ms (MReturned err) d1), err].
  destruct ec as [e|].
  { eexists _, _. split; [apply rtc_once, step_select_error|done]. }
  destruct dn.
  { eexists _, _. split;
      [apply rtc_once, (step_select_done _ _ time.zero 0), publish_seq_publish|done]. }
  destruct (run_unlock header rows ws [] r q c None false ms MSelect d1)
    as (ws' & ms' & Hrun1 & Hall & Hex & Hlen).
  cbn [app] in Hrun1.
  assert (Hfinish : ∀ r' ms'',
    rtc (step header rows) (mkState r q c None ws false ms MSelect d1)
        (mkState r' [] true None ws' false ms'' MSelect d1) →
    ∃ st' err, rtc (step header rows) (mkState r q c None ws false ms MSelect d1) st' ∧
               main st' = MReturned err).
  { intros r' ms'' Hto.
    destruct (run_finish header rows ws' r' ms'' d1 Hall) as (st' & Hrun2 & Hmain).
    exists st', None. split; [by etrans|done]. }
  assert (Hcase : WExited ∈ ws' ∨ Forall (λ w, w = WRange) ws').
  { clear -Hall. induction Hall as [|w l Hw _ IH]; [by right|].
    destruct Hw as [->| ->]; [|left; left].
    destruct IH as [IH|IH]; [left; by right|right; by constructor]. }
  destruct Hcase as [Hin|Hrange].
  { destruct (Hexit (Hex Hin)) as [-> ->]. by apply (Hfinish r ms'). }
  assert (Hw0 : ws' !! 0 = Some WRange).
  { destruct ws' as [|w ws'']; [by destruct ws|].
    by apply Forall_cons in Hrange as [-> _]. }
  pose proof (run_drain header rows q r c None ws' false ms' MSelect d1 Hw0) as Hrun2.
  assert (Hopen : r ≠ RExited → c = false).
  { intros Hr. destruct c; [|done]. exfalso. by apply Hr, Hclosed. }
  destruct r as [|hm rest| |].
  - rewrite Hopen in * by done.
    destruct header as [e|headers] eqn:Hheader.
    + eexists _, _. split.
      { eapply rtc_l; [by apply step_header_error|].
        apply rtc_once, step_select_error. }
      done.
    + eapply Hfinish.
      etrans; [exact Hrun1|]. etrans; [exact Hrun2|].
      eapply rtc_l; [by eapply step_header_ok|].
      etrans; [by apply run_rows|].
      apply rtc_once, step_close.
  - rewrite Hopen in * by done.
    eapply Hfinish.
    etrans; [exact Hrun1|]. etrans; [exact Hrun2|].
    etrans; [by apply run_rows|].
    apply rtc_once, step_close.
  - eapply Hfinish.
    etrans; [exact Hrun1|]. etrans; [exact Hrun2|].
    apply rtc_once, step_close.
  - assert (c = true) as -> by (by apply Hclosed).
    eapply Hfinish.
    etrans; [exact Hrun1|]. exact Hrun2.
Qed.

Lemma X5_a_run_can_always_return_witness :
  rtc (@step GoRef.std (ReadOk demo_header) demo_rows) (init 4 New) demo_mid ∧
  ∃ st' err,
    rtc (@step GoRef.std (ReadOk demo_header) demo_rows) demo_mid st' ∧
    main st' = MReturned err.
Proof.
  split; [exact demo_mid_reachable|].
  exact (@X5_a_run_can_always_return GoRef.std 4 _ _ New demo_mid demo_mid_reachable).
Defined.

(** * The monthly and the regional aggregation *)

Lemma wrap64_add_l a b : wrap64 (wrap64 a + b) = wrap64 (a + b).
Proof.
  unfold wrap64. f_equal.
  replace ((a + 2 ^ 63) mod 2 ^ 64 - 2 ^ 63 + b + 2 ^ 63)%Z
    with ((a + 2 ^ 63) mod 2 ^ 64 + b)%Z by lia.
  rewrite Z.add_mod_idemp_l by lia. f_equal. lia.
Qed.

Lemma sumQuantity_snoc l x :
  sumQuantity (l ++ [x]) = (sumQuantity l + Transaction.Quantity x)%Z.
Proof. unfold sumQuantity. induction l as [|y l IH]; simpl in *; lia. Qed.

Lemma sumQuantity_perm l l' : l ≡ₚ l' → sumQuantity l = sumQuantity l'.
Proof.
  unfold sumQuantity.
  induction 1 as [|x l l' _ IH|x y l|l l' l'' _ IH1 _ IH2]; simpl; lia.
Qed.

Lemma regionMap_lookup txs r :
  regionMap (aggregateAll txs) !! r =
    foldl (entry_step newRegion updRegion) None (recordsOfRegion r txs).
Proof.
  unfold aggregateAll. rewrite foldl_locked_regionMap.
  by rewrite foldl_upsert_lookup.
Qed.

Section EntryFold.
Context {V : Type} (new : Transaction.t → V) (upd : V → Transaction.t → V).

Lemma foldl_entry_Some r0 rs : is_Some (foldl (entry_step new upd) None (r0 :: rs)).
Proof.
  induction rs as [|r rs IH] using rev_ind; [by eexists|].
  change (r0 :: rs ++ [r]) with ((r0 :: rs) ++ [r]). rewrite foldl_app. by eexists.
Qed.

(** A field the update copies is the field of the entry made from the first
    record. *)
Lemma foldl_entry_const {W} (proj : V → W) r0 rs e :
  (∀ v x, proj (upd v x) = proj v) →
  foldl (entry_step new upd) None (r0 :: rs) = Some e → proj e = proj (new r0).
Proof.
  intros Hupd. revert e. induction rs as [|r rs IH] using rev_ind; intros e.
  - by intros [= <-].
  - change (r0 :: rs ++ [r]) with ((r0 :: rs) ++ [r]). rewrite foldl_app.
    destruct (foldl_entry_Some r0 rs) as [e0 He0]. rewrite He0.
    intros [= <-]. rewrite Hupd. by apply IH.
Qed.

(** A field to which the update adds the quantity is the sum of the
    quantities, as Go's [int] adds them. *)
Lemma foldl_entry_quantity (proj : V → Z) r0 rs e :
  (∀ x, proj (new x) = Transaction.Quantity x) →
  (∀ v x, proj (upd v x) = add64 (proj v) (Transaction.Quantity x)) →
  int_range (Transaction.Quantity r0) →
  foldl (entry_step new upd) None (r0 :: rs) = Some e →
  proj e = wrap64 (sumQuantity (r0 :: rs)).
Proof.
  intros Hnew Hupd Hr0. revert e. induction rs as [|r rs IH] using rev_ind; intros e.
  - intros [= <-]. rewrite Hnew. unfold sumQuantity. cbn [foldr].
    rewrite Z.add_0_r. symmetry. by apply wrap64_id.
  - change (r0 :: rs ++ [r]) with ((r0 :: rs) ++ [r]). rewrite foldl_app.
    destruct (foldl_entry_Some r0 rs) as [e0 He0]. rewrite He0.
    intros [= <-]. rewrite Hupd, (IH e0 He0), sumQuantity_snoc.
    unfold add64. apply wrap64_add_l.
Qed.

End EntryFold.

Lemma recordsOfRegion_perm r txs txs' :
  txs ≡ₚ txs' → recordsOfRegion r txs ≡ₚ recordsOfRegion r txs'.
Proof. intros Hp. unfold recordsOfRegion. by rewrite Hp. Qed.

Lemma region_entry txs r e :
  Forall (λ tx, int_range (Transaction.Quantity tx)) txs →
  regionMap (aggregateAll txs) !! r = Some e →
  RegionRevenue.Region e = r ∧
  RegionRevenue.ItemsSold e = wrap64 (sumQuantity (recordsOfRegion r txs)).
Proof.
  intros Hq. rewrite regionMap_lookup.
  destruct (recordsOfRegion r txs) as [|r0 rs] eqn:Hrs; [done|].
  assert (Hr0 : r0 ∈ txs ∧ Transaction.Region r0 = r).
  { assert (Hin : r0 ∈ recordsOfRegion r txs) by (rewrite Hrs; left).
    unfold recordsOfRegion in Hin. apply list_elem_of_filter in Hin. tauto. }
  destruct Hr0 as [Hin Hreg]. intros He. split.
  - rewrite (foldl_entry_const newRegion updRegion RegionRevenue.Region r0 rs e);
      done.
  - apply (foldl_entry_quantity newRegion updRegion RegionRevenue.ItemsSold r0 rs e);
      [done..| |done].
    by apply (proj1 (Forall_forall _ _) Hq).
Qed.

(** X6.  The entry of a region in the region map carries the name of the
    region, and its [items_sold] is the sum of the quantities of the records
    of that region, added as Go's [int] adds (so the exact sum whenever it is
    in the range of [int]); it is the same in whatever order the workers
    fold the records. *)
Theorem X6_items_sold_is_the_sum_of_quantities txs r e :
  Forall (λ tx, int_range (Transaction.Quantity tx)) txs →
  regionMap (aggregateAll txs) !! r = Some e →
  RegionRevenue.Region e = r ∧
  RegionRevenue.ItemsSold e = wrap64 (sumQuantity (recordsOfRegion r txs)) ∧
  (int_range (sumQuantity (recordsOfRegion r txs)) →
   RegionRevenue.ItemsSold e = sumQuantity (recordsOfRegion r txs)) ∧
  (∀ txs' e', txs' ≡ₚ txs → regionMap (aggregateAll txs') !! r = Some e' →
     RegionRevenue.ItemsSold e' = RegionRevenue.ItemsSold e).
Proof.
  intros Hq He. destruct (region_entry txs r e Hq He) as [Hname Hsum].
  split_and!; [done..| |].
  - intros Hrange. rewrite Hsum. by apply wrap64_id.
  - intros txs' e' Hp He'.
    assert (Hq' : Forall (λ tx, int_range (Transaction.Quantity tx)) txs')
      by by rewrite Hp.
    destruct (region_entry txs' r e' Hq' He') as [_ ->]. rewrite Hsum.
    f_equal. apply sumQuantity_perm. by apply recordsOfRegion_perm.
Qed.

Lemma X6_items_sold_is_the_sum_of_quantities_witness :
  Forall (λ tx, int_range (Transaction.Quantity tx)) qty_txs ∧
  regionMap (aggregateAll qty_txs) !! "North America" =
    Some (RegionRevenue.mk "North America" 3000 6) ∧
  RegionRevenue.ItemsSold (RegionRevenue.mk "North America" 3000 6) =
    wrap64 (sumQuantity (recordsOfRegion "North America" qty_txs)).
Proof.
  assert (Hq : Forall (λ tx, int_range (Transaction.Quantity tx)) qty_txs).
  { repeat constructor; unfold int_range; simpl; lia. }
  assert (He : regionMap (aggregateAll qty_txs) !! "North America" =
                 Some (RegionRevenue.mk "North America" 3000 6))
    by (vm_compute; reflexivity).
  split; [exact Hq|]. split; [exact He|].
  exact (proj1 (proj2 (X6_items_sold_is_the_sum_of_quantities qty_txs _ _ Hq He))).
Defined.

(** ** The month key is one to one *)

Lemma Sprintf_02d_month_length m :
  String.length (Sprintf_02d (time.Month_int m)) = 2.
Proof. by destruct m. Qed.

Lemma Sprintf_02d_month_inj m1 m2 :
  Sprintf_02d (time.Month_int m1) = Sprintf_02d (time.Month_int m2) → m1 = m2.
Proof.
  destruct m1, m2; intros Heq; first [reflexivity | (vm_compute in Heq; discriminate)].
Qed.

Lemma Month_String_inj m1 m2 : time.Month_String m1 = time.Month_String m2 → m1 = m2.
Proof.
  destruct m1, m2; intros Heq; first [reflexivity | (vm_compute in Heq; discriminate)].
Qed.

Lemma monthKey_inj a b :
  monthKey a = monthKey b →
  time.Year (Transaction.TransactionDate a) = time.Year (Transaction.TransactionDate b) ∧
  time.Month_of (Transaction.TransactionDate a) =
    time.Month_of (Transaction.TransactionDate b).
Proof.
  unfold monthKey, Sprintf_d. intros Hkey.
  apply string_app_inj_suffix in Hkey as [Hy Hm].
  - split; [by apply (inj pretty)|].
    change (?x +:+ ?y) with (String.append x y) in Hm.
    cbn [String.append] in Hm. injection Hm as Hm. by apply Sprintf_02d_month_inj.
  - rewrite !string_app_length, !Sprintf_02d_month_length. done.
Qed.

Lemma monthly_entry txs k e :
  Forall (λ tx, int_range (Transaction.Quantity tx)) txs →
  monthMap (aggregateAll txs) !! k = Some e →
  ∃ r0, r0 ∈ txs ∧ monthKey r0 = k ∧
    MonthlySales.Year e = time.Year (Transaction.TransactionDate r0) ∧
    MonthlySales.Month e = time.Month_String (time.Month_of (Transaction.TransactionDate r0)) ∧
    MonthlySales.SalesVolume e = wrap64 (sumQuantity (recordsOfMonth k txs)).
Proof.
  intros Hq. rewrite monthMap_lookup.
  destruct (recordsOfMonth k txs) as [|r0 rs] eqn:Hrs; [done|].
  assert (Hr0 : r0 ∈ txs ∧ monthKey r0 = k).
  { assert (Hin : r0 ∈ recordsOfMonth k txs) by (rewrite Hrs; left).
    unfold recordsOfMonth in Hin. apply list_elem_of_filter in Hin. tauto. }
  destruct Hr0 as [Hin Hkey]. intros He. exists r0. split_and!; [done..| | |].
  - by rewrite (foldl_entry_const newMonth updMonth MonthlySales.Year r0 rs e).
  - by rewrite (foldl_entry_const newMonth updMonth MonthlySales.Month r0 rs e).
  - apply (foldl_entry_quantity newMonth updMonth MonthlySales.SalesVolume r0 rs e);
      [done..| |done].
    by apply (proj1 (Forall_forall _ _) Hq).
Qed.

(** X7.  The monthly map has one bucket for every calendar month of every
    year: two transactions fall into the same bucket exactly when their dates
    have the same year and the same month.  The bucket of a transaction
    carries the year and the English name of the month of its date, and its
    [sales_volume] is the sum of the quantities of the transactions of that
    month and year, added as Go's [int] adds. *)
Theorem X7_one_monthly_bucket_per_calendar_month txs tx :
  Forall (λ r, int_range (Transaction.Quantity r)) txs →
  tx ∈ txs →
  (∀ r, monthKey r = monthKey tx ↔
        time.Year (Transaction.TransactionDate r) =
          time.Year (Transaction.TransactionDate tx) ∧
        time.Month_of (Transaction.TransactionDate r) =
          time.Month_of (Transaction.TransactionDate tx)) ∧
  ∃ e, monthMap (aggregateAll txs) !! monthKey tx = Some e ∧
       MonthlySales.Year e = time.Year (Transaction.TransactionDate tx) ∧
       MonthlySales.Month e =
         time.Month_String (time.Month_of (Transaction.TransactionDate tx)) ∧
       MonthlySales.SalesVolume e = wrap64 (sumQuantity (recordsOfMonth (monthKey tx) txs)).
Proof.
  intros Hq Hin. split.
  - intros r. split; [apply monthKey_inj|].
    intros [Hy Hm]. unfold monthKey. by rewrite Hy, Hm.
  - assert (Hsome : is_Some (monthMap (aggregateAll txs) !! monthKey tx)).
    { apply elem_of_dom. rewrite monthMap_dom. unfold distinct.
      apply elem_of_list_to_set, list_elem_of_fmap. eauto. }
    destruct Hsome as [e He]. exists e. split; [done|].
    destruct (monthly_entry txs _ e Hq He) as (r0 & _ & Hkey & Hy & Hm & Hv).
    apply monthKey_inj in Hkey as [Hy0 Hm0].
    rewrite Hy, Hm, Hy0, Hm0. done.
Qed.

Lemma X7_one_monthly_bucket_per_calendar_month_witness :
  Forall (λ r, int_range (Transaction.Quantity r)) qty_txs ∧
  nth 2 qty_txs Transaction.zero ∈ qty_txs ∧
  ∃ e, monthMap (aggregateAll qty_txs) !! "2024-01" = Some e ∧
       MonthlySales.Year e = 2024%Z ∧ MonthlySales.Month e = "January" ∧
       MonthlySales.SalesVolume e = wrap64 (sumQuantity (recordsOfMonth "2024-01" qty_txs)).
Proof.
  assert (Hq : Forall (λ tx, int_range (Transaction.Quantity tx)) qty_txs).
  { repeat constructor; unfold int_range; simpl; lia. }
  assert (Hin : nth 2 qty_txs Transaction.zero ∈ qty_txs).
  { simpl. do 2 right. left. }
  split; [exact Hq|]. split; [exact Hin|].
  exact (proj2 (X7_one_monthly_bucket_per_calendar_month qty_txs _ Hq Hin)).
Defined.

(** ** No key twice in a view *)

Lemma NoDup_values_proj {V W} (m : gmap string V) (g : V → W) :
  (∀ k1 k2 e1 e2, m !! k1 = Some e1 → m !! k2 = Some e2 → g e1 = g e2 → k1 = k2) →
  NoDup (g <$> (map_to_list m).*2).
Proof.
  intros Hkey. rewrite <- list_fmap_compose.
  apply NoDup_fmap_2_strong; [|apply NoDup_map_to_list].
  intros [k1 e1] [k2 e2] H1%elem_of_map_to_list H2%elem_of_map_to_list Heq.
  simpl in Heq. assert (k1 = k2) as -> by by eapply Hkey.
  f_equal. congruence.
Qed.

Lemma NoDup_fmap_truncate {A W} (g : A → W) limit (xs : list A) :
  NoDup (g <$> xs) → NoDup (g <$> truncate limit xs).
Proof.
  unfold truncate. case_decide; [|done].
  rewrite fmap_take. intros Hnd. eapply sublist_NoDup; [done|apply sublist_take].
Qed.

Lemma country_entry_key txs k e :
  countryMap (aggregateAll txs) !! k = Some e →
  k = CountryRevenue.Country e +:+ "-" +:+ CountryRevenue.ProductName e.
Proof.
  rewrite countryMap_lookup.
  destruct (recordsOfKey k txs) as [|r0 rs] eqn:Hrs; [done|].
  assert (Hr0 : countryKey r0 = k).
  { assert (Hin : r0 ∈ recordsOfKey k txs) by (rewrite Hrs; left).
    unfold recordsOfKey in Hin. by apply list_elem_of_filter in Hin as [? _]. }
  intros He.
  rewrite (foldl_entry_const newCountry updCountry CountryRevenue.Country r0 rs e),
    (foldl_entry_const newCountry updCountry CountryRevenue.ProductName r0 rs e);
    done.
Qed.

(** X8.  In the views a completed run publishes no key comes twice: no two
    entries of the country-product view have the same country and product, no
    two entries of the top-products view the same product name, no two
    entries of the monthly view the same year and month, and no two entries
    of the top-regions view the same region. *)
Theorem X8_no_key_twice_in_a_view `{!GoStd} numWorkers src d d' :
  ProcessDataset numWorkers src d d' None →
  NoDup ((λ e, (CountryRevenue.Country e, CountryRevenue.ProductName e)) <$>
           DashboardData.CountryRevenues d') ∧
  NoDup (ProductFrequency.ProductName <$> DashboardData.TopProducts d') ∧
  NoDup ((λ e, (MonthlySales.Year e, MonthlySales.Month e)) <$>
           DashboardData.MonthlySales d') ∧
  NoDup (RegionRevenue.Region <$> DashboardData.TopRegions d').
Proof.
  intros Hrun.
  apply ProcessDataset_nil in Hrun as (applied & now & duration & _ & Hpub).
  destruct Hpub as (Hc & Hp & Hm & Hr & _).
  split_and!.
  - apply sortCountryRevenues_perm in Hc. rewrite Hc.
    apply NoDup_values_proj. intros k1 k2 e1 e2 H1 H2 [= Hco Hpr].
    rewrite (country_entry_key _ _ _ H1), (country_entry_key _ _ _ H2).
    by rewrite Hco, Hpr.
  - destruct Hp as (products & sorted & Hrange & [Hperm _] & ->).
    apply NoDup_fmap_truncate. rewrite Hperm, Hrange.
    apply NoDup_values_proj. intros k1 k2 e1 e2 H1 H2 Heq.
    apply productMap_entry in H1 as (_ & _ & _ & <- & _).
    apply productMap_entry in H2 as (_ & _ & _ & <- & _). done.
  - apply sortMonthlySales_perm in Hm. rewrite Hm.
    apply NoDup_values_proj. intros k1 k2 e1 e2 H1 H2 [= Hy Hmo].
    rewrite monthMap_lookup in H1, H2.
    destruct (recordsOfMonth k1 applied) as [|r1 rs1] eqn:Hrs1; [done|].
    destruct (recordsOfMonth k2 applied) as [|r2 rs2] eqn:Hrs2; [done|].
    assert (Hk1 : monthKey r1 = k1)
      by (apply (recordsOfMonth_key _ applied); rewrite Hrs1; left).
    assert (Hk2 : monthKey r2 = k2)
      by (apply (recordsOfMonth_key _ applied); rewrite Hrs2; left).
    rewrite (foldl_entry_const newMonth updMonth MonthlySales.Year r1 rs1 e1),
      (foldl_entry_const newMonth updMonth MonthlySales.Year r2 rs2 e2) in Hy
      by done.
    rewrite (foldl_entry_const newMonth updMonth MonthlySales.Month r1 rs1 e1),
      (foldl_entry_const newMonth updMonth MonthlySales.Month r2 rs2 e2) in Hmo
      by done.
    cbn in Hy, Hmo. apply Month_String_inj in Hmo.
    rewrite <- Hk1, <- Hk2. unfold monthKey. by rewrite Hy, Hmo.
  - destruct Hr as (regions & sorted & Hrange & [Hperm _] & ->).
    apply NoDup_fmap_truncate. rewrite Hperm, Hrange.
    apply NoDup_values_proj. intros k1 k2 e1 e2 H1 H2 Heq.
    rewrite regionMap_lookup in H1, H2.
    destruct (recordsOfRegion k1 applied) as [|r1 rs1] eqn:Hrs1; [done|].
    destruct (recordsOfRegion k2 applied) as [|r2 rs2] eqn:Hrs2; [done|].
    assert (Hk1 : Transaction.Region r1 = k1).
    { assert (Hin : r1 ∈ recordsOfRegion k1 applied) by (rewrite Hrs1; left).
      unfold recordsOfRegion in Hin. by apply list_elem_of_filter in Hin as [? _]. }
    assert (Hk2 : Transaction.Region r2 = k2).
    { assert (Hin : r2 ∈ recordsOfRegion k2 applied) by (rewrite Hrs2; left).
      unfold recordsOfRegion in Hin. by apply list_elem_of_filter in Hin as [? _]. }
    rewrite (foldl_entry_const newRegion updRegion RegionRevenue.Region r1 rs1 e1),
      (foldl_entry_const newRegion updRegion RegionRevenue.Region r2 rs2 e2) in Heq
      by done.
    cbn in Heq. congruence.
Qed.

Lemma X8_no_key_twice_in_a_view_witness :
  @ProcessDataset GoRef.std 4 demo_src New demo_run.1 None ∧
  NoDup ((λ e, (CountryRevenue.Country e, CountryRevenue.ProductName e)) <$>
           DashboardData.CountryRevenues demo_run.1).
Proof.
  assert (Hrun : @ProcessDataset GoRef.std 4 demo_src New demo_run.1 None)
    by apply (@ProcessDataset_seq_sound GoRef.std).
  split; [exact Hrun|].
  exact (proj1 (@X8_no_key_twice_in_a_view GoRef.std 4 demo_src New demo_run.1 Hrun)).
Defined.

(** * Quantities are conserved *)

Lemma sumOf_cons {A} (f : A → Z) e l : sumOf f (e :: l) = (f e + sumOf f l)%Z.
Proof. done. Qed.

Lemma sumOf_perm {A} (f : A → Z) l l' : l ≡ₚ l' → sumOf f l = sumOf f l'.
Proof.
  induction 1 as [|x l l' _ IH|x y l|l l' l'' _ IH1 _ IH2];
    rewrite ?sumOf_cons; lia.
Qed.

Lemma sumOf_nonneg {A} (f : A → Z) l : Forall (λ e, 0 ≤ f e)%Z l → (0 ≤ sumOf f l)%Z.
Proof. induction 1; rewrite ?sumOf_cons; [done|lia]. Qed.

Lemma sumOf_take_le {A} (f : A → Z) n l :
  Forall (λ e, 0 ≤ f e)%Z l → (sumOf f (take n l) ≤ sumOf f l)%Z.
Proof.
  intros Hall. revert n. induction Hall as [|e l He Hall IH]; intros [|n]; simpl;
    rewrite ?sumOf_cons; try done.
  - pose proof (sumOf_nonneg f l Hall). change (sumOf f []) with 0%Z. lia.
  - specialize (IH n). lia.
Qed.

Lemma sumQuantity_nonneg txs :
  Forall (λ tx, 0 ≤ Transaction.Quantity tx)%Z txs → (0 ≤ sumQuantity txs)%Z.
Proof. apply (sumOf_nonneg Transaction.Quantity). Qed.

Section UpsertSum.
Context {V : Type} (key : Transaction.t → string).
Context (new : Transaction.t → V) (upd : V → Transaction.t → V) (proj : V → Z).
Hypothesis Hnew : ∀ x, proj (new x) = Transaction.Quantity x.
Hypothesis Hupd : ∀ v x, proj (upd v x) = add64 (proj v) (Transaction.Quantity x).

(** While the quantities are not negative and their sum is in the range of
    [int], the field that accumulates them sums, over the entries of the map,
    to the sum of the quantities of the records. *)
Lemma upsert_sum txs :
  Forall (λ tx, 0 ≤ Transaction.Quantity tx)%Z txs →
  (sumQuantity txs < 2 ^ 63)%Z →
  map_Forall (λ _ e, 0 ≤ proj e)%Z (foldl (λ m x, upsert key new upd x m) ∅ txs) ∧
  sumOf proj (map_to_list (foldl (λ m x, upsert key new upd x m) ∅ txs)).*2 =
    sumQuantity txs.
Proof.
  induction txs as [|tx txs IH] using rev_ind; intros Hq Hsum.
  - split; [apply map_Forall_empty|done].
  - apply Forall_app in Hq as [Hq [Htx _]%Forall_cons]. cbv beta in Htx.
    rewrite sumQuantity_snoc in Hsum.
    pose proof (sumQuantity_nonneg txs Hq) as Hnn.
    destruct IH as [Hpos Htot]; [done|lia|].
    rewrite foldl_app. cbn [foldl].
    set (m := foldl (λ m x, upsert key new upd x m) ∅ txs) in *.
    unfold upsert. rewrite sumQuantity_snoc.
    destruct (m !! key tx) as [e|] eqn:Hk.
    + assert (Hdel : map_to_list m ≡ₚ (key tx, e) :: map_to_list (delete (key tx) m))
        by (symmetry; by apply map_to_list_delete).
      assert (Hrest : (0 ≤ sumOf proj (map_to_list (delete (key tx) m)).*2)%Z).
      { apply sumOf_nonneg. apply Forall_fmap, Forall_forall.
        intros [k' e'] Hin. apply elem_of_map_to_list in Hin.
        apply lookup_delete_Some in Hin as [_ Hin]. by apply (Hpos k'). }
      assert (Htot' : (proj e + sumOf proj (map_to_list (delete (key tx) m)).*2 =
                         sumQuantity txs)%Z).
      { rewrite <- Htot. by rewrite (sumOf_perm _ _ _ (fmap_Permutation snd _ _ Hdel)). }
      assert (He : (0 ≤ proj e)%Z) by by apply (Hpos _ _ Hk).
      assert (Hadd : proj (upd e tx) = (proj e + Transaction.Quantity tx)%Z).
      { rewrite Hupd. unfold add64. apply wrap64_id. lia. }
      split.
      * apply map_Forall_insert_2; [|done]. rewrite Hadd. lia.
      * rewrite <- insert_delete_eq.
        rewrite (sumOf_perm _ _ _ (fmap_Permutation snd _ _
                   (map_to_list_insert _ _ _ (lookup_delete_eq _ _)))).
        rewrite fmap_cons, sumOf_cons. cbn [snd]. rewrite Hadd. lia.
    + split.
      * apply map_Forall_insert_2; [|done]. rewrite Hnew. lia.
      * rewrite (sumOf_perm _ _ _ (fmap_Permutation snd _ _
                   (map_to_list_insert _ _ _ Hk))).
        rewrite fmap_cons, sumOf_cons. cbn [snd]. rewrite Hnew, Htot. lia.
Qed.

End UpsertSum.

Lemma size_distinct_le f txs : (size (distinct f txs) ≤ length txs)%nat.
Proof.
  unfold distinct. induction txs as [|tx txs IH]; cbn [fmap list_fmap list_to_set length].
  - by rewrite size_empty.
  - destruct (decide (f tx ∈ (list_to_set (f <$> txs) : gset string))) as [Hin|Hnin].
    + rewrite (subseteq_union_1_L {[f tx]}); [lia|].
      by apply singleton_subseteq_l.
    + rewrite size_union by (by apply disjoint_singleton_l).
      rewrite size_singleton. lia.
Qed.

(** X9.  When no quantity of the file is negative and the quantities sum to
    less than [2^63], a completed run conserves them: the [sales_volume] of
    the entries of the monthly view sum to the total quantity of the valid
    rows, and the [items_sold] of the top-regions view sum to at most that,
    and to exactly that when the file has no more than 30 regions. *)
Theorem X9_quantities_are_conserved `{!GoStd} numWorkers src d d' :
  Forall (λ tx, 0 ≤ Transaction.Quantity tx)%Z (sent src) →
  (sumQuantity (sent src) < 2 ^ 63)%Z →
  ProcessDataset numWorkers src d d' None →
  sumOf MonthlySales.SalesVolume (DashboardData.MonthlySales d') = sumQuantity (sent src) ∧
  (sumOf RegionRevenue.ItemsSold (DashboardData.TopRegions d') ≤ sumQuantity (sent src))%Z ∧
  ((size (distinct Transaction.Region (sent src)) ≤ 30)%nat →
   sumOf RegionRevenue.ItemsSold (DashboardData.TopRegions d') = sumQuantity (sent src)).
Proof.
  intros Hq Hsum Hrun.
  apply ProcessDataset_nil in Hrun as (applied & now & duration & Happlied & Hpub).
  destruct Hpub as (_ & _ & Hm & Hr & _).
  rewrite <- (distinct_perm _ _ _ Happlied), <- (sumQuantity_perm _ _ Happlied) in *.
  rewrite <- Happlied in Hq. clear Happlied.
  rewrite <- regionMap_dom, size_dom.
  unfold aggregateAll in *.
  rewrite foldl_locked_monthMap in Hm. rewrite foldl_locked_regionMap in Hr |- *.
  cbn [emptyMaps monthMap regionMap] in *.
  destruct (upsert_sum monthKey newMonth updMonth MonthlySales.SalesVolume
              (λ _, eq_refl) (λ _ _, eq_refl) applied Hq Hsum) as [_ Hmonth].
  destruct (upsert_sum Transaction.Region newRegion updRegion RegionRevenue.ItemsSold
              (λ _, eq_refl) (λ _ _, eq_refl) applied Hq Hsum) as [Hpos Hregion].
  split.
  { apply sortMonthlySales_perm in Hm. by rewrite (sumOf_perm _ _ _ Hm). }
  destruct Hr as (regions & sorted & Hrange & [Hperm _] & ->).
  assert (Hvalues : sorted ≡ₚ
    (map_to_list (foldl (λ m x, upsert Transaction.Region newRegion updRegion x m)
                        ∅ applied)).*2) by by rewrite Hperm.
  assert (Hnn : Forall (λ e, 0 ≤ RegionRevenue.ItemsSold e)%Z sorted).
  { rewrite Hvalues. apply Forall_fmap, Forall_forall.
    intros [k e] Hin%elem_of_map_to_list. by apply (Hpos k). }
  rewrite <- Hregion, <- (sumOf_perm _ _ _ Hvalues).
  split.
  - unfold truncate. case_decide; [by apply sumOf_take_le|done].
  - intros Hsize. unfold truncate. case_decide as Hlen; [|done].
    rewrite Hvalues, length_fmap, length_map_to_list in Hlen. lia.
Qed.

Lemma X9_quantities_are_conserved_witness :
  Forall (λ tx, 0 ≤ Transaction.Quantity tx)%Z (@sent GoRef.std demo_src) ∧
  (sumQuantity (@sent GoRef.std demo_src) < 2 ^ 63)%Z ∧
  @ProcessDataset GoRef.std 4 demo_src New demo_run.1 None ∧
  sumOf MonthlySales.SalesVolume (DashboardData.MonthlySales demo_run.1) =
    sumQuantity (@sent GoRef.std demo_src).
Proof.
  assert (Hq : Forall (λ tx, 0 ≤ Transaction.Quantity tx)%Z (@sent GoRef.std demo_src)).
  { repeat constructor; vm_compute; discriminate. }
  assert (Hsum : (sumQuantity (@sent GoRef.std demo_src) < 2 ^ 63)%Z)
    by (vm_compute; reflexivity).
  assert (Hrun : @ProcessDataset GoRef.std 4 demo_src New demo_run.1 None)
    by apply (@ProcessDataset_seq_sound GoRef.std).
  split; [exact Hq|]. split; [exact Hsum|]. split; [exact Hrun|].
  exact (proj1 (@X9_quantities_are_conserved GoRef.std 4 demo_src New demo_run.1
                  Hq Hsum Hrun)).
Defined.

(** * What the top views keep *)

Lemma lessProductFrequency_ordering xs : transitive_ordering lessProductFrequency xs.
Proof.
  unfold lessProductFrequency. split_and!.
  - intros a _. rewrite Z.gtb_ltb. apply Z.ltb_irrefl.
  - intros a b c _ _ _. rewrite !Z.gtb_ltb, !Z.ltb_lt. lia.
  - intros a b c _ _ _. rewrite !Z.gtb_ltb, !Z.ltb_ge. lia.
Qed.

(** What is cut from a sorted slice sorts before nothing that is kept. *)
Lemma truncate_keeps_the_first {A} (less : A → A → bool) limit sorted :
  sorted_by less sorted →
  ∃ rest, truncate limit sorted ++ rest = sorted ∧
    (∀ a b, a ∈ truncate limit sorted → b ∈ rest → less b a = false) ∧
    (rest ≠ [] → length (truncate limit sorted) = limit).
Proof.
  intros Hsorted. unfold truncate. case_decide as Hlen.
  - exists (drop limit sorted). split_and!.
    + apply take_drop.
    + intros a b [i Ha]%list_elem_of_lookup [j Hb]%list_elem_of_lookup.
      pose proof (lookup_lt_Some _ _ _ Ha) as Hi. rewrite length_take in Hi.
      rewrite lookup_take_lt in Ha by lia. rewrite lookup_drop in Hb.
      apply (Hsorted i (limit + j)); [lia|done..].
    + intros _. rewrite length_take. lia.
  - exists []. split_and!; [apply app_nil_r| |done].
    intros a b _ Hb. by apply elem_of_nil in Hb.
Qed.

(** X10.  The top-products view of a completed run is sorted by purchase
    count, largest first, whatever the counts; and it is a top list: the
    products that are cut (there are some only when the view has its 20
    entries) have a purchase count no larger than that of any product of the
    view. *)
Theorem X10_top_products_are_the_most_purchased `{!GoStd} numWorkers src d d' :
  ProcessDataset numWorkers src d d' None →
  ∃ applied rest,
    applied ≡ₚ sent src ∧
    DashboardData.TopProducts d' ++ rest ≡ₚ
      (map_to_list (productMap (aggregateAll applied))).*2 ∧
    (∀ i j a b, i < j →
       DashboardData.TopProducts d' !! i = Some a →
       DashboardData.TopProducts d' !! j = Some b →
       (ProductFrequency.PurchaseCount b ≤ ProductFrequency.PurchaseCount a)%Z) ∧
    (∀ a b, a ∈ DashboardData.TopProducts d' → b ∈ rest →
       (ProductFrequency.PurchaseCount b ≤ ProductFrequency.PurchaseCount a)%Z) ∧
    (rest ≠ [] → length (DashboardData.TopProducts d') = 20).
Proof.
  intros Hrun.
  apply ProcessDataset_nil in Hrun as (applied & now & duration & Happlied & Hpub).
  destruct Hpub as (_ & Hp & _).
  destruct Hp as (products & sorted & Hrange & [Hperm Hsorted] & ->).
  specialize (Hsorted (lessProductFrequency_ordering _)).
  destruct (truncate_keeps_the_first _ 20 sorted Hsorted) as (rest & Happ & Hrest & Hlen).
  exists applied, rest. split_and!; [done| | | |done].
  - by rewrite Happ, Hperm, Hrange.
  - intros i j a b Hij Ha Hb.
    pose proof (sorted_by_truncate _ 20 _ Hsorted i j a b Hij Ha Hb) as Hless.
    unfold lessProductFrequency in Hless.
    rewrite Z.gtb_ltb in Hless. by apply Z.ltb_ge in Hless.
  - intros a b Ha Hb. specialize (Hrest a b Ha Hb).
    unfold lessProductFrequency in Hrest.
    rewrite Z.gtb_ltb in Hrest. by apply Z.ltb_ge in Hrest.
Qed.

Lemma X10_top_products_are_the_most_purchased_witness :
  @ProcessDataset GoRef.std 4 demo_src New demo_run.1 None ∧
  ∃ applied rest,
    applied ≡ₚ @sent GoRef.std demo_src ∧
    DashboardData.TopProducts demo_run.1 ++ rest ≡ₚ
      (map_to_list (productMap (aggregateAll applied))).*2 ∧
    (∀ i j a b, i < j →
       DashboardData.TopProducts demo_run.1 !! i = Some a →
       DashboardData.TopProducts demo_run.1 !! j = Some b →
       (ProductFrequency.PurchaseCount b ≤ ProductFrequency.PurchaseCount a)%Z) ∧
    (∀ a b, a ∈ DashboardData.TopProducts demo_run.1 → b ∈ rest →
       (ProductFrequency.PurchaseCount b ≤ ProductFrequency.PurchaseCount a)%Z) ∧
    (rest ≠ [] → length (DashboardData.TopProducts demo_run.1) = 20).
Proof.
  assert (Hrun : @ProcessDataset GoRef.std 4 demo_src New demo_run.1 None)
    by apply (@ProcessDataset_seq_sound GoRef.std).
  split; [exact Hrun|].
  exact (@X10_top_products_are_the_most_purchased GoRef.std 4 demo_src New demo_run.1 Hrun).
Defined.

(** X11.  When the total revenue of no region is NaN, the top-regions view is
    a top list: the regions that are cut (there are some only when the view
    has its 30 entries) have a total revenue no larger than that of any
    region of the view. *)
Theorem X11_top_regions_have_the_largest_revenue ms now duration d' :
  publish ms now duration d' →
  map_Forall (λ _ e, number (RegionRevenue.TotalRevenue e)) (regionMap ms) →
  ∃ rest,
    DashboardData.TopRegions d' ++ rest ≡ₚ (map_to_list (regionMap ms)).*2 ∧
    (∀ a b, a ∈ DashboardData.TopRegions d' → b ∈ rest →
       (RegionRevenue.TotalRevenue b <=? RegionRevenue.TotalRevenue a)%float = true) ∧
    (rest ≠ [] → length (DashboardData.TopRegions d') = 30).
Proof.
  intros (_ & _ & _ & Hr & _) Hnum.
  destruct Hr as (regions & sorted & Hrange & [Hperm Hsorted] & ->).
  pose proof (range_values_number _ _ _ Hnum Hrange) as Hnums.
  specialize (Hsorted (float_desc_ordering _ _ Hnums)).
  destruct (truncate_keeps_the_first _ 30 sorted Hsorted) as (rest & Happ & Hrest & Hlen).
  exists rest. split_and!; [|  |done].
  - by rewrite Happ, Hperm, Hrange.
  - intros a b Ha Hb. specialize (Hrest a b Ha Hb).
    unfold lessRegionRevenue in Hrest.
    assert (Hin : ∀ x, x ∈ sorted → number (RegionRevenue.TotalRevenue x)).
    { intros x Hx. rewrite Hperm in Hx. by apply (proj1 (Forall_forall _ _) Hnums). }
    apply ltb_false_leb; [apply Hin|apply Hin|done].
    + rewrite <- Happ. apply elem_of_app. by left.
    + rewrite <- Happ. apply elem_of_app. by right.
Qed.

Lemma X11_top_regions_have_the_largest_revenue_witness :
  publish demo_maps demo_now demo_duration (publish_seq demo_maps demo_now demo_duration) ∧
  map_Forall (λ _ e, number (RegionRevenue.TotalRevenue e)) (regionMap demo_maps) ∧
  ∃ rest,
    DashboardData.TopRegions (publish_seq demo_maps demo_now demo_duration) ++ rest ≡ₚ
      (map_to_list (regionMap demo_maps)).*2 ∧
    (∀ a b, a ∈ DashboardData.TopRegions (publish_seq demo_maps demo_now demo_duration) →
       b ∈ rest →
       (RegionRevenue.TotalRevenue b <=? RegionRevenue.TotalRevenue a)%float = true) ∧
    (rest ≠ [] →
     length (DashboardData.TopRegions (publish_seq demo_maps demo_now demo_duration)) = 30).
Proof.
  assert (Hpub : publish demo_maps demo_now demo_duration
                   (publish_seq demo_maps demo_now demo_duration))
    by apply publish_seq_publish.
  assert (Hnum : map_Forall (λ _ e, number (RegionRevenue.TotalRevenue e))
                   (regionMap demo_maps)).
  { apply map_Forall_to_list. vm_compute. repeat constructor. }
  split; [exact Hpub|]. split; [exact Hnum|].
  exact (X11_top_regions_have_the_largest_revenue _ _ _ _ Hpub Hnum).
Defined.

(** X12.  The [record_count] a completed run publishes is the number of
    entries of the country-product view, that is the number of distinct
    country-product keys of the file; it is at most the number of valid rows,
    and not their number in general. *)
Theorem X12_record_count_counts_the_keys `{!GoStd} numWorkers src d d' :
  ProcessDataset numWorkers src d d' None →
  DashboardData.RecordCount d' = Z.of_nat (length (DashboardData.CountryRevenues d')) ∧
  DashboardData.RecordCount d' = Z.of_nat (size (distinct countryKey (sent src))) ∧
  (DashboardData.RecordCount d' ≤ Z.of_nat (validRowCount src))%Z.
Proof.
  intros Hrun.
  apply ProcessDataset_nil in Hrun as (applied & now & duration & Happlied & Hpub).
  destruct Hpub as (Hc & _ & _ & _ & _ & _ & ->).
  apply sortCountryRevenues_perm in Hc.
  assert (Hsize : size (countryMap (aggregateAll applied)) =
                    size (distinct countryKey (sent src))).
  { by rewrite <- size_dom, countryMap_dom, (distinct_perm _ _ _ Happlied). }
  split_and!.
  - by rewrite Hc, length_fmap, length_map_to_list.
  - by rewrite Hsize.
  - rewrite Hsize, <- length_sent. apply Nat2Z.inj_le, size_distinct_le.
Qed.

Lemma X12_record_count_counts_the_keys_witness :
  @ProcessDataset GoRef.std 4 demo_src New demo_run.1 None ∧
  DashboardData.RecordCount demo_run.1 = 2%Z ∧
  validRowCount demo_src = 3.
Proof.
  assert (Hrun : @ProcessDataset GoRef.std 4 demo_src New demo_run.1 None)
    by apply (@ProcessDataset_seq_sound GoRef.std).
  split; [exact Hrun|]. split; [|reflexivity].
  exact (eq_trans
    (proj1 (proj2 (@X12_record_count_counts_the_keys GoRef.std 4 demo_src New demo_run.1 Hrun)))
    eq_refl).
Defined.

(** * The reader *)

Section Reader.
Context `{!GoStd}.

(** X13.  [readCSV] sends one transaction for every row the CSV reader
    accepts, in the order of the file: the transactions sent are the parses
    of the valid rows, none is dropped by the parser and none is reordered. *)
Theorem X13_one_transaction_per_valid_row headerMap rows :
  readCSV_sent headerMap rows =
    (λ record, (parseTransaction record headerMap).1) <$> validRows rows.
Proof.
  induction rows as [|[e|record] rows IH]; [done|done|].
  rewrite (readCSV_sent_ok _ _ _ _ (parseTransaction_nil_error record headerMap)).
  unfold validRows in *. cbn [omap list_omap fmap list_fmap]. by rewrite IH.
Qed.

Lemma buildHeaderMap_snoc headers h :
  buildHeaderMap (headers ++ [h]) =
    <[strings_TrimSpace (strings_ToLower h) := length headers]> (buildHeaderMap headers).
Proof.
  unfold buildHeaderMap. rewrite length_app. cbn [length].
  rewrite seq_app. cbn [seq]. rewrite Nat.add_0_l.
  rewrite zip_with_app by by rewrite length_seq.
  by rewrite foldl_app.
Qed.

(** X14.  The header map sends a name to the position of the last header
    that reads as this name once put in lower case and trimmed; a name no
    header reads as is not in the map.  So the columns are found whatever the
    case and the white space of the header row, every position is a position
    of the header row, and of two columns with the same name the later one is
    used. *)
Theorem X14_header_map_finds_the_last_column headers name :
  (∀ idx,
     buildHeaderMap headers !! name = Some idx ↔
       (∃ h, headers !! idx = Some h ∧ strings_TrimSpace (strings_ToLower h) = name) ∧
       (∀ j h, idx < j → headers !! j = Some h →
               strings_TrimSpace (strings_ToLower h) ≠ name)) ∧
  (buildHeaderMap headers !! name = None ↔
     ∀ h, h ∈ headers → strings_TrimSpace (strings_ToLower h) ≠ name).
Proof.
  induction headers as [|h headers [IHsome IHnone]] using rev_ind.
  - split.
    + intros idx. split; [done|]. by intros [(h & Hh & _) _].
    + split; [|done]. intros _ h Hh. by apply elem_of_nil in Hh.
  - rewrite buildHeaderMap_snoc.
    destruct (decide (strings_TrimSpace (strings_ToLower h) = name)) as [Hname|Hname].
    + rewrite Hname, lookup_insert_eq. split.
      * intros idx. split.
        -- intros [= <-]. split.
           ++ exists h. split; [|done]. by apply list_lookup_middle.
           ++ intros j h' Hj Hh'. apply lookup_lt_Some in Hh'.
              rewrite length_app in Hh'. cbn [length] in Hh'. lia.
        -- intros [(h' & Hh' & Hn') Hlast]. f_equal.
           pose proof (lookup_lt_Some _ _ _ Hh') as Hlt.
           rewrite length_app in Hlt. cbn [length] in Hlt.
           destruct (decide (idx = length headers)) as [->|Hne]; [done|].
           exfalso. apply (Hlast (length headers) h); [lia| |done].
           by apply list_lookup_middle.
      * split; [done|]. intros Hall. exfalso. apply (Hall h); [|done].
        apply elem_of_app. right. left.
    + rewrite lookup_insert_ne by done. split.
      * intros idx. rewrite IHsome. split.
        -- intros [(h' & Hh' & Hn') Hlast]. split.
           ++ exists h'. split; [|done]. by apply lookup_app_l_Some.
           ++ intros j h'' Hj Hh''.
              apply lookup_app_Some in Hh'' as [Hh''|[_ Hh'']]; [by eapply Hlast|].
              apply list_lookup_singleton_Some in Hh'' as [_ <-]. done.
        -- intros [(h' & Hh' & Hn') Hlast]. split.
           ++ exists h'. split; [|done].
              apply lookup_app_Some in Hh' as [Hh'|[_ Hh']]; [done|].
              apply list_lookup_singleton_Some in Hh' as [_ <-]. done.
           ++ intros j h'' Hj Hh''. apply (Hlast j h'' Hj). by apply lookup_app_l_Some.
      * rewrite IHnone. split.
        -- intros Hall h' [Hh'|Hh']%elem_of_app; [by apply Hall|].
           apply list_elem_of_singleton in Hh' as ->. done.
        -- intros Hall h' Hh'. apply Hall, elem_of_app. by left.
Qed.

(** X15.  [parseTransaction] reads a row through the thirteen column names
    only: two rows that give the same cell, or none, for every one of the
    thirteen names parse to the same transaction, whatever the order of the
    columns and whatever other columns the files have. *)
Theorem X15_only_the_named_cells_matter record headerMap record' headerMap' :
  (∀ name, name ∈ columns →
     column record headerMap name = column record' headerMap' name) →
  parseTransaction record headerMap = parseTransaction record' headerMap'.
Proof.
  intros Hcell. unfold parseTransaction. cbv zeta.
  rewrite !Hcell by (unfold columns; repeat constructor). done.
Qed.

End Reader.

Lemma X15_only_the_named_cells_matter_witness :
  (∀ name, name ∈ columns →
     column test_record test_headerMap name =
       column swapped_record swapped_headerMap name) ∧
  @parseTransaction GoRef.std test_record test_headerMap =
    @parseTransaction GoRef.std swapped_record swapped_headerMap.
Proof.
  assert (Hcell : ∀ name, name ∈ columns →
            column test_record test_headerMap name =
              column swapped_record swapped_headerMap name).
  { intros name Hname. unfold columns in Hname.
    repeat (apply elem_of_cons in Hname as [->|Hname]; [vm_compute; reflexivity|]).
    by apply elem_of_nil in Hname. }
  split; [exact Hcell|].
  exact (@X15_only_the_named_cells_matter GoRef.std _ _ _ _ Hcell).
Defined.

(** * The country-product key when no country name holds a hyphen *)

Lemma hyphen_split s1 s2 t1 t2 :
  occurs "-" s1 = false → occurs "-" s2 = false →
  s1 +:+ "-" +:+ t1 = s2 +:+ "-" +:+ t2 → s1 = s2 ∧ t1 = t2.
Proof.
  revert s2. induction s1 as [|c1 s1 IH]; intros [|c2 s2]; cbn [occurs];
    intros H1 H2 Heq.
  - simpl in Heq. by injection Heq.
  - change ("-" +:+ t1 = String c2 (s2 +:+ "-" +:+ t2)) in Heq.
    simpl in Heq. injection Heq as <- _. by rewrite decide_True in H2.
  - change (String c1 (s1 +:+ "-" +:+ t1) = "-" +:+ t2) in Heq.
    simpl in Heq. injection Heq as -> _. by rewrite decide_True in H1.
  - change (String c1 (s1 +:+ "-" +:+ t1) = String c2 (s2 +:+ "-" +:+ t2)) in Heq.
    injection Heq as -> Heq. case_decide; [done|].
    destruct (IH s2 H1 H2 Heq) as [-> ->]. done.
Qed.

(** X16.  Among transactions whose country names hold no hyphen the
    country-product key is one to one: two transactions have the same key
    exactly when they have the same country and the same product name, and
    the entry at the key of a transaction carries its country and its product
    name.  (A product name may hold hyphens.) *)
Theorem X16_key_is_one_to_one_without_hyphens txs :
  Forall (λ tx, occurs "-" (Transaction.Country tx) = false) txs →
  (∀ a b, a ∈ txs → b ∈ txs →
     countryKey a = countryKey b ↔
       Transaction.Country a = Transaction.Country b ∧
       Transaction.ProductName a = Transaction.ProductName b) ∧
  (∀ tx, tx ∈ txs →
     ∃ e, countryMap (aggregateAll txs) !! countryKey tx = Some e ∧
          CountryRevenue.Country e = Transaction.Country tx ∧
          CountryRevenue.ProductName e = Transaction.ProductName tx).
Proof.
  intros Hfree.
  assert (Hinj : ∀ a b, a ∈ txs → b ∈ txs → countryKey a = countryKey b →
            Transaction.Country a = Transaction.Country b ∧
            Transaction.ProductName a = Transaction.ProductName b).
  { intros a b Ha Hb. apply hyphen_split.
    - by apply (proj1 (Forall_forall _ _) Hfree a).
    - by apply (proj1 (Forall_forall _ _) Hfree b). }
  split.
  - intros a b Ha Hb. split; [by apply Hinj|].
    intros [Hc Hp]. by apply countryKey_same_pair.
  - intros tx Hin.
    assert (Hsome : is_Some (countryMap (aggregateAll txs) !! countryKey tx)).
    { apply elem_of_dom. rewrite countryMap_dom. unfold distinct.
      apply elem_of_list_to_set, list_elem_of_fmap. eauto. }
    destruct Hsome as [e He]. exists e. split; [done|].
    rewrite countryMap_lookup in He.
    destruct (recordsOfKey (countryKey tx) txs) as [|r0 rs] eqn:Hrs; [done|].
    assert (Hr0 : r0 ∈ txs ∧ countryKey r0 = countryKey tx).
    { assert (Hin0 : r0 ∈ recordsOfKey (countryKey tx) txs) by (rewrite Hrs; left).
      unfold recordsOfKey in Hin0. apply list_elem_of_filter in Hin0. tauto. }
    destruct Hr0 as [Hin0 Hkey]. destruct (Hinj _ _ Hin0 Hin Hkey) as [Hc Hp].
    rewrite (foldl_entry_const newCountry updCountry CountryRevenue.Country r0 rs e),
      (foldl_entry_const newCountry updCountry CountryRevenue.ProductName r0 rs e)
      by done.
    done.
Qed.

Lemma X16_key_is_one_to_one_without_hyphens_witness :
  Forall (λ tx, occurs "-" (Transaction.Country tx) = false)
    [sale "Guinea" "Bissau-Radio" 60 1 9; sale "Guinea" "Radio" 40 1 7] ∧
  ∃ e, countryMap (aggregateAll [sale "Guinea" "Bissau-Radio" 60 1 9;
                                 sale "Guinea" "Radio" 40 1 7])
         !! countryKey (sale "Guinea" "Radio" 40 1 7) = Some e ∧
       CountryRevenue.Country e = "Guinea" ∧ CountryRevenue.ProductName e = "Radio".
Proof.
  assert (Hfree : Forall (λ tx, occurs "-" (Transaction.Country tx) = false)
                    [sale "Guinea" "Bissau-Radio" 60 1 9; sale "Guinea" "Radio" 40 1 7])
    by (repeat constructor).
  split; [exact Hfree|].
  apply (proj2 (X16_key_is_one_to_one_without_hyphens _ Hfree)).
  right. left.
Defined.

(** * The sample data *)

Lemma elem_of_indexed {A} (xs : list A) i x : xs !! i = Some x → (i, x) ∈ indexed xs.
Proof.
  intros Hx. apply list_elem_of_lookup. exists i. unfold indexed.
  rewrite lookup_zip_with, lookup_seq_lt by by eapply lookup_lt_Some.
  by rewrite Hx.
Qed.

Lemma elem_of_indexed_snd {A} (xs : list A) (ix : nat * A) : ix ∈ indexed xs → ix.2 ∈ xs.
Proof.
  unfold indexed. destruct ix as [i x]. apply elem_of_zip_r.
Qed.

Section SampleDataProperties.
Context `{!GoRand}.

Lemma sample_count n k s :
  (0 < n)%Z → (0 ≤ k)%Z → (n + k < 2 ^ 63)%Z →
  (k ≤ add64 (rand_Intn n s).1 k < n + k)%Z.
Proof.
  intros Hn Hk Hnk. pose proof (rand_Intn_range n s Hn).
  unfold add64. rewrite wrap64_id; lia.
Qed.

(** One slot of an indexed loop. *)
Lemma fill_loop {A B} (f : B → rand_Source → A * rand_Source) (P : B → A → Prop)
    zero xs pre s :
  (∀ x s', P x (f x s').1) →
  ∃ vs s',
    foldl (λ acc ix, let v := f ix.2 acc.2 in (<[ix.1 := v.1]> acc.1, v.2))
          (pre ++ replicate (length xs) zero, s)
          (zip (seq (length pre) (length xs)) xs) = (pre ++ vs, s') ∧
    Forall2 P xs vs.
Proof.
  intros HP. revert pre s. induction xs as [|x xs IH]; intros pre s.
  - exists [], s. by split.
  - cbn [length replicate seq zip zip_with foldl fst snd].
    rewrite insert_app_r_alt, Nat.sub_diag by done. cbn [insert list_insert].
    rewrite (cons_middle _ pre), app_assoc.
    replace (S (length pre)) with (length (pre ++ [(f x s).1]))
      by (rewrite length_app; simpl; lia).
    destruct (IH (pre ++ [(f x s).1]) (f x s).2) as (vs & s' & Heq & Hvs).
    exists ((f x s).1 :: vs), s'. split; [|by constructor].
    rewrite <- (app_assoc pre [(f x s).1] vs) in Heq. exact Heq.
Qed.

Lemma fill_spec {A B} (f : B → rand_Source → A * rand_Source) (P : B → A → Prop)
    zero xs s :
  (∀ x s', P x (f x s').1) → Forall2 P xs (fill (length xs) zero f xs s).1.
Proof.
  intros HP. unfold fill, indexed.
  destruct (fill_loop f P zero xs [] s HP) as (vs & s' & Heq & Hvs).
  cbn [app length] in Heq. by rewrite Heq.
Qed.

Lemma Forall2_fmap_eq {A B} (g : A → B) xs vs :
  Forall2 (λ x a, g a = x) xs vs → g <$> vs = xs.
Proof. induction 1 as [|x a xs vs Hx _ IH]; [done|]. cbn. by rewrite Hx, IH. Qed.

Lemma Forall2_Forall_snd {A B} (P : B → A → Prop) (Q : A → Prop) xs vs :
  (∀ x a, P x a → Q a) → Forall2 P xs vs → Forall Q vs.
Proof. intros HPQ. induction 1; constructor; eauto. Qed.

(** One turn of the inner loop appends at most one entry, and it appends one
    for each of the first six products. *)
Lemma sampleRevenue_spec country acc ip :
  ∃ new,
    (sampleRevenue country acc ip).1 = acc.1 ++ new ∧
    ((new = [] ∧ 5 < ip.1) ∨
     ∃ e, new = [e] ∧ CountryRevenue.Country e = country ∧
          CountryRevenue.ProductName e = ip.2 ∧
          (50 ≤ CountryRevenue.TransactionCount e < 550)%Z).
Proof.
  unfold sampleRevenue.
  assert (Hcount : ∀ s, (50 ≤ add64 (rand_Intn 500 s).1 50 < 550)%Z)
    by (intros s; apply sample_count; lia).
  destruct (decide (5 < ip.1)) as [Hi|Hi]; cbn [fst snd].
  - destruct (float32_0_7 <? (rand_Float32 acc.2).1)%float.
    + exists []. rewrite app_nil_r. split; [done|]. by left.
    + eexists. split; [done|]. right. eexists.
      split; [done|]. split; [done|]. split; [done|]. apply Hcount.
  - eexists. split; [done|]. right. eexists.
      split; [done|]. split; [done|]. split; [done|]. apply Hcount.
Qed.

Lemma sampleRevenues_spec country ips acc :
  ∃ new, (foldl (sampleRevenue country) acc ips).1 = acc.1 ++ new ∧
         appended country ips new.
Proof.
  unfold appended. revert acc. induction ips as [|ip ips IH]; intros acc.
  - exists []. rewrite app_nil_r. split; [done|].
    split_and!; [done..|]. intros ip Hip. by apply elem_of_nil in Hip.
  - cbn [foldl].
    destruct (sampleRevenue_spec country acc ip) as (new0 & Heq0 & Hnew0).
    destruct (IH (sampleRevenue country acc ip)) as (new1 & Heq1 & Hl1 & Hf1 & Ha1 & He1).
    exists (new0 ++ new1). rewrite Heq1, Heq0, <- app_assoc. split; [done|].
    assert (Hweak : Forall (λ e, CountryRevenue.Country e = country ∧
               CountryRevenue.ProductName e ∈ (ip :: ips).*2 ∧
               (50 ≤ CountryRevenue.TransactionCount e < 550)%Z) new1).
    { eapply Forall_impl; [exact Ha1|]. intros e (? & ? & ?).
      split; [done|]. split; [|done]. cbn. by right. }
    rewrite filter_cons.
    destruct Hnew0 as [[-> Hi]|(e & -> & Hc & Hp & Hn)].
    + rewrite decide_False by lia. cbn [app length].
      split_and!; [lia|done|done|].
      intros ip' [->|Hip']%elem_of_cons Hi'; [lia|]. by apply He1.
    + cbn [app length]. split_and!.
      * lia.
      * case_decide; cbn [length]; lia.
      * constructor; [|done]. split; [done|]. split; [|done]. rewrite Hp. cbn. left.
      * intros ip' [->|Hip']%elem_of_cons Hi'.
        -- exists e. split_and!; [left|done..].
        -- destruct (He1 ip' Hip' Hi') as (e' & ? & ? & ?).
           exists e'. split_and!; [by right|done..].
Qed.

Lemma sampleCountries_spec ips cs acc :
  ∃ new,
    (foldl (λ acc country, foldl (sampleRevenue country) acc ips) acc cs).1 =
      acc.1 ++ new ∧
    (length new ≤ length cs * length ips)%nat ∧
    (length cs * length (filter (λ ip, ip.1 ≤ 5)%nat ips) ≤ length new)%nat ∧
    Forall (λ e, CountryRevenue.Country e ∈ cs ∧
                 CountryRevenue.ProductName e ∈ ips.*2 ∧
                 (50 ≤ CountryRevenue.TransactionCount e < 550)%Z) new ∧
    (∀ country ip, country ∈ cs → ip ∈ ips → (ip.1 ≤ 5)%nat →
       ∃ e, e ∈ new ∧ CountryRevenue.Country e = country ∧
            CountryRevenue.ProductName e = ip.2).
Proof.
  revert acc. induction cs as [|c cs IH]; intros acc.
  - exists []. rewrite app_nil_r. split; [done|].
    split_and!; [done..|]. intros c ip Hc. by apply elem_of_nil in Hc.
  - cbn [foldl].
    destruct (sampleRevenues_spec c ips acc) as (new0 & Heq0 & Hl0 & Hf0 & Ha0 & He0).
    destruct (IH (foldl (sampleRevenue c) acc ips))
      as (new1 & Heq1 & Hl1 & Hf1 & Ha1 & He1).
    exists (new0 ++ new1). rewrite Heq1, Heq0, <- app_assoc. split; [done|].
    rewrite length_app. cbn [length]. split_and!; [lia|lia| |].
    + apply Forall_app. split.
      * eapply Forall_impl; [exact Ha0|]. intros e (-> & ? & ?).
        split; [left|done].
      * eapply Forall_impl; [exact Ha1|]. intros e (? & ? & ?).
        split; [by right|done].
    + intros c' ip [->|Hc']%elem_of_cons Hip Hi.
      * destruct (He0 ip Hip Hi) as (e & ? & ? & ?).
        exists e. split_and!; [|done..]. apply elem_of_app. by left.
      * destruct (He1 c' ip Hc' Hip Hi) as (e & ? & ? & ?).
        exists e. split_and!; [|done..]. apply elem_of_app. by right.
Qed.

Lemma sampleCountryRevenues_spec s :
  (60 ≤ length (sampleCountryRevenues s).1 ≤ 200)%nat ∧
  Forall (λ e, CountryRevenue.Country e ∈ sample.countries ∧
               CountryRevenue.ProductName e ∈ sample.products ∧
               (50 ≤ CountryRevenue.TransactionCount e < 550)%Z)
         (sampleCountryRevenues s).1 ∧
  (∀ country product i,
     country ∈ sample.countries → sample.products !! i = Some product → (i ≤ 5)%nat →
     ∃ e, e ∈ (sampleCountryRevenues s).1 ∧ CountryRevenue.Country e = country ∧
          CountryRevenue.ProductName e = product).
Proof.
  unfold sampleCountryRevenues.
  unfold appended in *.
  destruct (sampleCountries_spec (indexed sample.products) sample.countries ([], s))
    as (new & -> & Hl & Hf & Ha & He).
  cbn [fst app].
  change (length sample.countries) with 10 in *.
  change (length (indexed sample.products)) with 20 in *.
  change (length (filter (λ ip : nat * string, (ip.1 ≤ 5)%nat) (indexed sample.products)))
    with 6 in *.
  split_and!; [lia|lia| |].
  - eapply Forall_impl; [exact Ha|]. intros e (? & Hp & ?).
    split; [done|]. split; [|done].
    apply list_elem_of_fmap in Hp as (ip & -> & Hip). by apply elem_of_indexed_snd.
  - intros country product i Hc Hp Hi.
    apply (He country (i, product) Hc); [by apply elem_of_indexed|done].
Qed.

(** X17.  [LoadSampleData] fills the four views with 20 products, 12 months,
    6 regions and between 60 and 200 country-product entries (every country
    with its first six products, and each of the fourteen other products
    unless a draw skips it), and sets [record_count] to the number of
    country-product entries, so to at least 60. *)
Theorem X17_sample_data_sizes currentYear now duration s :
  length (DashboardData.TopProducts (LoadSampleData currentYear now duration s).1) = 20 ∧
  length (DashboardData.MonthlySales (LoadSampleData currentYear now duration s).1) = 12 ∧
  length (DashboardData.TopRegions (LoadSampleData currentYear now duration s).1) = 6 ∧
  (60 ≤ length (DashboardData.CountryRevenues (LoadSampleData currentYear now duration s).1)
      ≤ 200)%nat ∧
  DashboardData.RecordCount (LoadSampleData currentYear now duration s).1 =
    Z.of_nat (length (DashboardData.CountryRevenues
                        (LoadSampleData currentYear now duration s).1)) ∧
  (60 ≤ DashboardData.RecordCount (LoadSampleData currentYear now duration s).1)%Z.
Proof.
  unfold LoadSampleData. cbn [fst DashboardData.TopProducts DashboardData.MonthlySales
    DashboardData.TopRegions DashboardData.CountryRevenues DashboardData.RecordCount].
  destruct (sampleCountryRevenues_spec s) as ([Hlo Hhi] & _).
  split_and!; [| | |done|done|done|lia].
  - by rewrite <- (Forall2_length _ _ _
      (fill_spec sampleProduct (λ _ _, True) _ sample.products _ (λ _ _, I))).
  - change 12 with (length sample.months) at 1.
    by rewrite <- (Forall2_length _ _ _
      (fill_spec (sampleMonth currentYear) (λ _ _, True) _ sample.months _ (λ _ _, I))).
  - by rewrite <- (Forall2_length _ _ _
      (fill_spec sampleRegion (λ _ _, True) _ sample.regions _ (λ _ _, I))).
Qed.

(** X18.  The sample views name what the code lists, in its order: the
    top-products view has the twenty product names, the monthly view the
    twelve months from January to December, all of the current year, and the
    top-regions view the six regions; and the country-product view holds,
    for every one of the ten countries, an entry for each of the first six
    products, and only entries of a listed country and a listed product. *)
Theorem X18_sample_data_names currentYear now duration s :
  ProductFrequency.ProductName <$>
      DashboardData.TopProducts (LoadSampleData currentYear now duration s).1 =
    sample.products ∧
  MonthlySales.Month <$>
      DashboardData.MonthlySales (LoadSampleData currentYear now duration s).1 =
    sample.months ∧
  Forall (λ e, MonthlySales.Year e = currentYear)
    (DashboardData.MonthlySales (LoadSampleData currentYear now duration s).1) ∧
  RegionRevenue.Region <$>
      DashboardData.TopRegions (LoadSampleData currentYear now duration s).1 =
    sample.regions ∧
  Forall (λ e, CountryRevenue.Country e ∈ sample.countries ∧
               CountryRevenue.ProductName e ∈ sample.products)
    (DashboardData.CountryRevenues (LoadSampleData currentYear now duration s).1) ∧
  (∀ country product i,
     country ∈ sample.countries → sample.products !! i = Some product → (i ≤ 5)%nat →
     ∃ e, e ∈ DashboardData.CountryRevenues (LoadSampleData currentYear now duration s).1 ∧
          CountryRevenue.Country e = country ∧ CountryRevenue.ProductName e = product).
Proof.
  unfold LoadSampleData. cbn [fst DashboardData.TopProducts DashboardData.MonthlySales
    DashboardData.TopRegions DashboardData.CountryRevenues].
  destruct (sampleCountryRevenues_spec s) as (_ & Hall & Hsix).
  split_and!; [| | | | |done].
  - apply Forall2_fmap_eq, fill_spec. done.
  - apply Forall2_fmap_eq. change 12 with (length sample.months). by apply fill_spec.
  - change 12 with (length sample.months).
    apply (Forall2_Forall_snd (λ _ e, MonthlySales.Year e = currentYear) _
             sample.months); [done|].
    by apply fill_spec.
  - apply Forall2_fmap_eq, fill_spec. done.
  - eapply Forall_impl; [exact Hall|]. by intros e (? & ? & _).
Qed.

(** X19.  The counts of the sample data are in the ranges the code names:
    a transaction count from 50 to 549, a purchase count from 1000 to 10999,
    a current stock from 50 to 549, a sales volume from 2000 to 6999 and a
    number of items sold from 5000 to 24999; none is zero or negative. *)
Theorem X19_sample_data_counts_are_in_range currentYear now duration s :
  Forall (λ e, 50 ≤ CountryRevenue.TransactionCount e < 550)%Z
    (DashboardData.CountryRevenues (LoadSampleData currentYear now duration s).1) ∧
  Forall (λ e, (1000 ≤ ProductFrequency.PurchaseCount e < 11000)%Z ∧
               (50 ≤ ProductFrequency.CurrentStock e < 550)%Z)
    (DashboardData.TopProducts (LoadSampleData currentYear now duration s).1) ∧
  Forall (λ e, 2000 ≤ MonthlySales.SalesVolume e < 7000)%Z
    (DashboardData.MonthlySales (LoadSampleData currentYear now duration s).1) ∧
  Forall (λ e, 5000 ≤ RegionRevenue.ItemsSold e < 25000)%Z
    (DashboardData.TopRegions (LoadSampleData currentYear now duration s).1).
Proof.
  unfold LoadSampleData. cbn [fst DashboardData.TopProducts DashboardData.MonthlySales
    DashboardData.TopRegions DashboardData.CountryRevenues].
  destruct (sampleCountryRevenues_spec s) as (_ & Hall & _).
  split_and!.
  - eapply Forall_impl; [exact Hall|]. by intros e (_ & _ & ?).
  - apply (Forall2_Forall_snd
             (λ _ e, (1000 ≤ ProductFrequency.PurchaseCount e < 11000)%Z ∧
                     (50 ≤ ProductFrequency.CurrentStock e < 550)%Z) _ sample.products);
      [done|].
    apply fill_spec. intros x s'. cbn. split; apply sample_count; lia.
  - change 12 with (length sample.months).
    apply (Forall2_Forall_snd (λ _ e, (2000 ≤ MonthlySales.SalesVolume e < 7000)%Z) _
             sample.months); [done|].
    apply fill_spec. intros x s'. cbn. apply sample_count; lia.
  - apply (Forall2_Forall_snd (λ _ e, (5000 ≤ RegionRevenue.ItemsSold e < 25000)%Z) _
             sample.regions); [done|].
    apply fill_spec. intros x s'. cbn. apply sample_count; lia.
Qed.

End SampleDataProperties.

(** The sample data of the example source: the monthly view is in the order
    of the calendar and the top-products view in the order of the list of
    the code. *)
Example demo_sample_views :
  length (DashboardData.CountryRevenues demo_sample) =
    Z.to_nat (DashboardData.RecordCount demo_sample) ∧
  MonthlySales.Month <$> DashboardData.MonthlySales demo_sample = sample.months ∧
  ProductFrequency.ProductName <$> DashboardData.TopProducts demo_sample = sample.products.
Proof. vm_compute. done. Qed.
